(** * A model of [rtsp_server.py]: thermal camera capture and MJPEG streaming

    The script reads raw frames of a TOPDON TC001 thermal camera, decodes one
    temperature sample, renders an annotated false-colour image and serves
    the latest image to HTTP clients as a [multipart/x-mixed-replace] stream.

    The definitions follow the script:
    - [Numpy]: the few NumPy operations the script relies on;
    - [Thermal]: the temperature decode of the capture loop;
    - [Cv2]: OpenCV and Python's number formatting, as an interface;
    - [Pipeline]: the image pipeline of one capture iteration;
    - [Http]: [ThreadedHTTPServer] and [StreamingHandler];
    - [Program]: the main thread from its [try] statement on, the handler
      threads, and their interleaving over the shared frame store.
    - [Platform]: [is_raspberrypi], as a function of what the model file
      holds.
    Argument parsing and the opening of the capture device come before the
    [try] statement and are not modelled; what the camera delivers is an
    input of the model.  The theorems come after all definitions. *)

From Stdlib Require Import ZArith QArith Qabs Lia.
From Stdlib Require Import PrimFloat Uint63 SpecFloat FloatOps Ascii String.
From stdpp Require Import base option list sets strings.

#[local] Set Warnings "-inexact-float".
#[local] Open Scope Z_scope.

(** A raw camera frame: rows, columns, two bytes per pixel. *)
Abbreviation RawFrame := (list (list (list Z))).

(** Python [bytes] and [str] values are both kept as strings of 8-bit
    characters. *)
Abbreviation bytes := string (only parsing).

(** ** NumPy operations *)

Module Numpy.

(** A [uint8] array element. Frames are nested lists of [Z]; the element type
    of the camera buffer bounds each entry. *)
Definition uint8 (z : Z) : Prop := 0 <= z < 256.

(** A NumPy [int64] scalar: two's complement wrap-around written out.  With
    the promotion rules of NumPy 1.x, which the script was written for,
    [np.uint8 * 256] and [np.uint8 + np.int64] are computed as [int64]. *)
Definition int64 (z : Z) : Z := (z + 2 ^ 63) `mod` 2 ^ 64 - 2 ^ 63.

(** Conversion of an integer scalar to [float64] (true division converts both
    operands first).  [of_uint63] rounds to nearest; every magnitude below
    [2^53] is converted exactly. *)
Definition float_of_Z (z : Z) : float :=
  match z with
  | Z0 => 0%float
  | Zpos _ => of_uint63 (Uint63.of_Z z)
  | Zneg _ => PrimFloat.opp (of_uint63 (Uint63.of_Z (- z)))
  end.

(** [np.array_split(ary, Nsections)] along the first axis:
    [Neach_section, extras = divmod(Ntotal, Nsections)], and the first
    [extras] sections get one row more. *)
Definition section_sizes (Ntotal Nsections : nat) : list nat :=
  let Neach_section := Nat.div Ntotal Nsections in
  let extras := Nat.modulo Ntotal Nsections in
  replicate extras (S Neach_section)
    ++ replicate (Nsections - extras) Neach_section.

Fixpoint sub_arys {A} (sizes : list nat) (ary : list A) : list (list A) :=
  match sizes with
  | [] => []
  | n :: sizes' => take n ary :: sub_arys sizes' (drop n ary)
  end.

(** [None] stands for the [ValueError] raised when [Nsections] is not
    positive. *)
Definition array_split {A} (ary : list A) (Nsections : nat)
  : option (list (list A)) :=
  match Nsections with
  | O => None
  | _ => Some (sub_arys (section_sizes (length ary) Nsections) ary)
  end.

(** The rational number a [float64] stands for; [None] for infinities and
    NaN. *)
Definition float_value (f : float) : option Q :=
  match Prim2SF f with
  | S754_zero _ => Some 0%Q
  | S754_finite s m e =>
      Some (inject_Z (if s then Zneg m else Zpos m) * Qpower 2 e)%Q
  | _ => None
  end.

(** The float [f] is within [eps] of the rational [q]. *)
Definition within (eps : Q) (f : float) (q : Q) : bool :=
  match float_value f with
  | Some v => Qle_bool (Qabs (v - q)) eps
  | None => false
  end.

(** [p] holds of the [n] integers from [z] on. *)
Fixpoint all_from (n : nat) (z : Z) (p : Z -> bool) : bool :=
  match n with
  | O => true
  | S n' => p z && all_from n' (z + 1) p
  end.

(** Tuple unpacking [a, b = xs]: fails unless [xs] has exactly two items. *)
Definition unpack2 {A} (xs : list A) : option (A * A) :=
  match xs with
  | [a; b] => Some (a, b)
  | _ => None
  end.

End Numpy.

(** ** Temperature decode (capture loop, "Process temperature") *)

Module Thermal.
Import Numpy.

(** [imdata, thdata = np.array_split(frame, 2)] *)
Definition split_frame (frame : RawFrame) : option (RawFrame * RawFrame) :=
  array_split frame 2 ≫= unpack2.

(** [thdata[96][128][k]]; [None] stands for the [IndexError]. *)
Definition thdata_96_128 (thdata : RawFrame) (k : nat) : option Z :=
  row ← thdata !! 96%nat;
  pixel ← row !! 128%nat;
  pixel !! k.

(** [[
        hi = thdata[96][128][0]
        lo = thdata[96][128][1]
        lo = lo*256
        rawtemp = hi+lo
        temp = (rawtemp/64)-273.15
    ]] *)
Definition decode_temp (thdata : RawFrame) : option float :=
  hi ← thdata_96_128 thdata 0;
  lo ← thdata_96_128 thdata 1;
  let lo := int64 (lo * 256) in
  let rawtemp := int64 (hi + lo) in
  Some (float_of_Z rawtemp / 64 - 273.15)%float.

(** The temperature the capture loop computes for a frame. *)
Definition frame_temp (frame : RawFrame) : option float :=
  '(_, thdata) ← split_frame frame;
  decode_temp thdata.

(** The two bytes of the thermal reading at row 96, column 128 of the thermal
    half, in buffer order: the first byte, then the second. *)
Definition thermal_bytes (frame : RawFrame) : option (Z * Z) :=
  '(_, thdata) ← split_frame frame;
  first ← thdata_96_128 thdata 0;
  second ← thdata_96_128 thdata 1;
  Some (first, second).

(** The formula on a 16-bit reading, in floating point as Python evaluates
    it and over the rationals. *)
Definition temp_of_raw (raw : Z) : float :=
  (float_of_Z raw / 64 - 273.15)%float.

Definition exact_temp (raw : Z) : Q := (Qmake raw 64 - Qmake 27315 100)%Q.

(** What the decode amounts to: the second byte is the significant one. *)
Definition temp_of_bytes (first second : Z) : float :=
  temp_of_raw (second * 256 + first).

(** The formula as the specification words it, [low] being the first byte and
    [high] the second. *)
Definition spec_formula (low high : Z) : float :=
  temp_of_raw (low * 256 + high).

(** A frame of the camera's size (384 rows of 256 pixels) in which every pixel
    holds the bytes [first; second]. *)
Definition uniform_frame (first second : Z) : RawFrame :=
  replicate 384 (replicate 256 [first; second]).

End Thermal.

(** ** OpenCV and the Python runtime, as far as the script uses them *)

Module Cv2.

(** The flags the script could pass; it passes one of each kind. *)
Inductive ColorConversionCode := COLOR_YUV2BGR_YUYV | COLOR_YUV2BGR_UYVY | COLOR_YUV2RGB_YUYV.
Inductive InterpolationFlags := INTER_NEAREST | INTER_LINEAR | INTER_CUBIC.
Inductive ColormapTypes := COLORMAP_AUTUMN | COLORMAP_BONE | COLORMAP_JET | COLORMAP_HOT.
Inductive HersheyFonts := FONT_HERSHEY_SIMPLEX | FONT_HERSHEY_PLAIN.

(** The image operations are external to the script: they are an interface
    here, and every statement below holds for each implementation of it.
    [Mat] is the pixel content of an image array.

    The five operations of the pipeline raise [cv2.error] on an image they do
    not accept ([cvtColor] with a YUYV code on rows of an odd number of
    pixels, for one): [None] stands for the exception.  [putText] draws into
    the array it is given, which is the 8-bit colour image [applyColorMap]
    returned: the field gives the content after the call.  [imencode_jpg] is
    [cv2.imencode('.jpg', _)[1].tobytes()] on such an image, and [format_1f]
    is Python's [f"{_:.1f}"]. *)
Class External (Mat : Type) := {
  cvtColor : RawFrame -> ColorConversionCode -> option Mat;
  convertScaleAbs : Mat -> float -> option Mat;
  resize : Mat -> Z * Z -> InterpolationFlags -> option Mat;
  blur : Mat -> Z * Z -> option Mat;
  applyColorMap : Mat -> ColormapTypes -> option Mat;
  putText : Mat -> string -> Z * Z -> HersheyFonts -> Z -> Z * Z * Z -> Z -> Mat;
  imencode_jpg : Mat -> bytes;
  format_1f : float -> string;
}.

End Cv2.

(** ** Settings and command line *)

(** The "Settings" block of the script. *)
Record Settings := {
  width : Z;
  height : Z;
  scale : Z;
  alpha : float;
  colormap : Z;
  rad : Z;
  threshold : Z;
}.

Definition newWidth (cfg : Settings) : Z := width cfg * scale cfg.
Definition newHeight (cfg : Settings) : Z := height cfg * scale cfg.

Definition settings : Settings :=
  {| width := 256; height := 192; scale := 3; alpha := 1.0%float;
     colormap := 0; rad := 0; threshold := 2 |}.

(** [args = parser.parse_args()] *)
Record Args := {
  device : Z;
  port : Z;
  headless : bool;
}.

(** ** The frame pipeline of one capture iteration *)

Module Pipeline.
Import Thermal Cv2.

Section pipeline.
Context {Mat : Type} `{!External Mat}.
Variable cfg : Settings.

(** "Convert to visible image": [cvtColor], [convertScaleAbs], [resize] and
    the guarded [blur].  [None] when one of them raises. *)
Definition visible (imdata : RawFrame) : option Mat :=
  bgr ← cvtColor imdata COLOR_YUV2BGR_YUYV;
  bgr ← convertScaleAbs bgr (alpha cfg);
  bgr ← resize bgr (newWidth cfg, newHeight cfg) INTER_CUBIC;
  if 0 <? rad cfg then blur bgr (rad cfg, rad cfg) else Some bgr.

(** From the split to [applyColorMap]: the temperature and the
    content of the fresh [heatmap] array.  [None] stands for an exception:
    the [IndexError] of the decode, or the [cv2.error] of an image operation
    (the decode comes first, as in the script). *)
Definition process (frame : RawFrame) : option (float * Mat) :=
  '(imdata, thdata) ← split_frame frame;
  temp ← decode_temp thdata;
  bgr ← visible imdata;
  heatmap ← applyColorMap bgr COLORMAP_JET;
  Some (temp, heatmap).

(** "Add temperature overlay": the content of [heatmap] after
    [cv2.putText(heatmap, f"{temp:.1f}C", (10, 30), cv2.FONT_HERSHEY_SIMPLEX,
    1, (255, 255, 255), 2)]. *)
Definition overlay (temp : float) (heatmap : Mat) : Mat :=
  putText heatmap (format_1f temp +:+ "C") (10, 30) FONT_HERSHEY_SIMPLEX 1
    (255, 255, 255) 2.

End pipeline.
End Pipeline.

(** ** The HTTP side: [ThreadedHTTPServer] and [StreamingHandler] *)

Module Http.
Import Cv2.

(** An image array is shared by reference: [ref] is the identity of an array,
    and the arrays' contents live in the heap of [Program.System]. *)
Abbreviation ref := nat (only parsing).

(** [ThreadedHTTPServer]: the one attribute the class adds. *)
Record Server := { current_frame : option ref }.

(** [__init__]: [self.current_frame = None] *)
Definition Server_init : Server := {| current_frame := None |}.

Definition set_frame (frame : ref) (self : Server) : Server :=
  {| current_frame := Some frame |}.

Definition get_frame (self : Server) : option ref := current_frame self.

(** What a handler calls on its connection, in order. *)
Inductive Call :=
| send_response (code : Z)
| send_header (keyword value : string)
| end_headers
| send_error (code : Z)
| wfile_write (data : bytes)
| print_streaming_error.

Definition CR : string := String "013"%char EmptyString.
Definition LF : string := String "010"%char EmptyString.
Definition CRLF : string := CR +:+ LF.
Definition quote : string := String "034"%char EmptyString.
Definition spaces (n : nat) : string := string_of_list_ascii (replicate n " "%char).

(** The triple-quoted page of the ['/'] route, line by line. *)
Definition img_tag : string := "<img src=" +:+ quote +:+ "/stream" +:+ quote +:+ " />".

Definition page : bytes :=
  LF +:+ spaces 16 +:+ "<html>"
  +:+ LF +:+ spaces 16 +:+ "<head>"
  +:+ LF +:+ spaces 20 +:+ "<title>Thermal Camera Stream</title>"
  +:+ LF +:+ spaces 16 +:+ "</head>"
  +:+ LF +:+ spaces 16 +:+ "<body>"
  +:+ LF +:+ spaces 20 +:+ "<h1>Thermal Camera Stream</h1>"
  +:+ LF +:+ spaces 20 +:+ img_tag
  +:+ LF +:+ spaces 16 +:+ "</body>"
  +:+ LF +:+ spaces 16 +:+ "</html>"
  +:+ LF +:+ spaces 12.

(** [wfile.write] may raise ([BrokenPipeError] and the like).  [fail] tells
    which write of the sequence raises, if any; the writes before it are
    made, and the flag tells whether all were. *)
Fixpoint writes (chunks : list bytes) (fail : option nat) : list Call * bool :=
  match chunks with
  | [] => ([], true)
  | data :: chunks' =>
      match fail with
      | Some O => ([], false)
      | _ =>
          let '(calls, ok) := writes chunks' (Nat.pred <$> fail) in
          (wfile_write data :: calls, ok)
      end
  end.

(** The response head of the ['/stream'] route. *)
Definition stream_head : list Call :=
  [send_response 200;
   send_header "Content-type" "multipart/x-mixed-replace; boundary=frame";
   end_headers].

(** The four [wfile.write] arguments of one iteration of the stream loop. *)
Definition part_chunks (jpeg : bytes) : list bytes :=
  ["--frame" +:+ CRLF;
   "Content-Type: image/jpeg" +:+ CRLF +:+ CRLF;
   jpeg;
   CRLF].

(** One part of the multipart body as the specification describes it: the
    boundary line, the [Content-Type] header line, a blank line, the payload
    and a trailing line break. *)
Definition multipart_part (jpeg : bytes) : bytes :=
  "--frame" +:+ CRLF
  +:+ "Content-Type: image/jpeg" +:+ CRLF
  +:+ CRLF
  +:+ jpeg
  +:+ CRLF.

(** The bytes received on a connection: what the [wfile.write] calls wrote. *)
Fixpoint body (calls : list Call) : bytes :=
  match calls with
  | [] => ""
  | wfile_write data :: calls' => data +:+ body calls'
  | _ :: calls' => body calls'
  end.

(** Where a handler thread stands. *)
Inductive HandlerPc :=
| DoGET                      (* [do_GET] is about to run *)
| StreamLoop                 (* at [frame = self.server.get_frame()] *)
| Encode (frame : ref)       (* [frame is not None]: at [cv2.imencode] *)
| Finished.                  (* [do_GET] has returned or raised *)

Record Handler := {
  path : string;
  pc : HandlerPc;
  calls : list Call;
}.

Section handler.
Context {Mat : Type} `{!External Mat}.

(** [do_GET] up to the stream loop. *)
Definition do_GET (self : Handler) (fail : option nat) : Handler :=
  if String.eqb (path self) "/" then
    {| path := path self; pc := Finished;
       calls := calls self
                ++ [send_response 200; send_header "Content-type" "text/html";
                    end_headers]
                ++ (writes [page] fail).1 |}
  else if String.eqb (path self) "/stream" then
    {| path := path self; pc := StreamLoop; calls := calls self ++ stream_head |}
  else
    {| path := path self; pc := Finished;
       calls := calls self ++ [send_error 404; end_headers] |}.

(** [frame = self.server.get_frame()] and the test [frame is not None]. *)
Definition stream_read (server : Server) (self : Handler) : Handler :=
  match get_frame server with
  | None => self
  | Some frame => {| path := path self; pc := Encode frame; calls := calls self |}
  end.

(** The body of the [if]: [imencode] reads the array's content [pixels], and
    four writes follow.  A failing write ends the loop in the [except]
    clause. *)
Definition stream_write (pixels : Mat) (self : Handler) (fail : option nat) : Handler :=
  let jpeg := imencode_jpg pixels in
  let '(written, ok) := writes (part_chunks jpeg) fail in
  if ok then
    {| path := path self; pc := StreamLoop; calls := calls self ++ written |}
  else
    {| path := path self; pc := Finished;
       calls := calls self ++ written ++ [print_streaming_error] |}.

End handler.
End Http.

(** ** The program: main thread, handler threads, shared state *)

Module Program.
Import Thermal Cv2 Pipeline Http.

(** Why the capture loop was left. *)
Inductive Exit :=
| CameraClosed     (* [cap.isOpened()] was false at the loop test *)
| ReadFailure      (* [ret] was false: [break] *)
| QuitKey          (* [q] was pressed in the window: [break] *)
| Interrupt        (* [KeyboardInterrupt] *)
| Exception.       (* another exception left the [try] block *)

(** Where the main thread stands. *)
Inductive MainPc :=
| Capture                               (* at [while cap.isOpened()] *)
| Overlay (heatmap : ref) (temp : float) (* at [cv2.putText] *)
| Update (heatmap : ref)                (* at [server.set_frame(heatmap)] *)
| Display (heatmap : ref)               (* at [if not args.headless] *)
| Finally (why : Exit)                  (* at the [finally] block *)
| Joining (why : Exit)                  (* inside [server.server_close()] *)
| Stopped (why : Exit).                 (* past the [try] statement *)

(** What the main thread does that others can observe, in order. *)
Inductive Effect :=
| cap_isOpened (result : bool)
| cap_read (frame : option RawFrame)
| server_set_frame (frame : ref)
| cv2_imshow (frame : ref)
| cv2_waitKey (result : Z)
| cap_release
| server_shutdown
| server_server_close
| cv2_destroyAllWindows
| print (text : string).

(** What the camera answers in one pass of the loop, and the key
    [cv2.waitKey(1)] would report. *)
Inductive Camera :=
| Closed
| NoFrame
| Frame (frame : RawFrame).

Record Input := { camera : Camera; key : Z }.

(** One scheduling decision: which thread runs next, and what the outside
    world answers it. *)
Inductive Action :=
| Main (i : Input)                     (* the main thread runs to its next point *)
| KeyboardInterrupt                    (* Ctrl+C reaches the main thread *)
| Request (path : string)              (* the server thread starts a handler *)
| Handle (c : nat) (fail : option nat). (* handler [c] runs to its next point *)

Section program.
Context {Mat : Type} `{!External Mat}.
Variable cfg : Settings.
Variable args : Args.

Record System := {
  heap : list Mat;                (* the contents of the [heatmap] arrays *)
  server : Server;
  serving : bool;                 (* [serve_forever] is accepting requests *)
  main : MainPc;
  log : list Effect;
  handlers : list Handler;
}.

(** The state when the script reaches its [try]: the server was built
    and started, no array exists, nobody has connected. *)
Definition init : System :=
  {| heap := []; server := Server_init; serving := true; main := Capture;
     log := []; handlers := [] |}.

Definition goto (pc : MainPc) (s : System) : System :=
  {| heap := heap s; server := server s; serving := serving s; main := pc;
     log := log s; handlers := handlers s |}.

Definition emit (effects : list Effect) (s : System) : System :=
  {| heap := heap s; server := server s; serving := serving s; main := main s;
     log := log s ++ effects; handlers := handlers s |}.

Definition with_heap (h : list Mat) (s : System) : System :=
  {| heap := h; server := server s; serving := serving s; main := main s;
     log := log s; handlers := handlers s |}.

Definition with_server (srv : Server) (up : bool) (s : System) : System :=
  {| heap := heap s; server := srv; serving := up; main := main s;
     log := log s; handlers := handlers s |}.

Definition with_handlers (hs : list Handler) (s : System) : System :=
  {| heap := heap s; server := server s; serving := serving s; main := main s;
     log := log s; handlers := hs |}.

(** The [finally] block, in two halves.  [ThreadedHTTPServer] leaves
    [daemon_threads] at its default, so [ThreadingMixIn.server_close] returns
    only when every handler thread has ended: the second half runs after
    that. *)
Definition release_calls : list Effect :=
  [cap_release; server_shutdown; server_server_close].

Definition farewell : list Effect :=
  (if headless args then [] else [cv2_destroyAllWindows])
  ++ [print "Capture ended"].

Definition handler_done (self : Handler) : bool :=
  match pc self with
  | Finished => true
  | _ => false
  end.

(** [cv2.waitKey(1) & 0xFF == ord('q')] *)
Definition quit_pressed (k : Z) : bool := Z.land k 255 =? 113.

(** The main thread, from one point to the next. *)
Definition main_step (i : Input) (s : System) : System :=
  match main s with
  | Capture =>
      match camera i with
      | Closed => goto (Finally CameraClosed) (emit [cap_isOpened false] s)
      | NoFrame =>
          goto (Finally ReadFailure) (emit [cap_isOpened true; cap_read None] s)
      | Frame frame =>
          let s := emit [cap_isOpened true; cap_read (Some frame)] s in
          match process cfg frame with
          | None => goto (Finally Exception) s
          | Some (temp, heatmap) =>
              goto (Overlay (length (heap s)) temp)
                (with_heap (heap s ++ [heatmap]) s)
          end
      end
  | Overlay heatmap temp =>
      goto (Update heatmap) (with_heap (alter (overlay temp) heatmap (heap s)) s)
  | Update heatmap =>
      goto (Display heatmap)
        (emit [server_set_frame heatmap]
           (with_server (set_frame heatmap (server s)) (serving s) s))
  | Display heatmap =>
      if headless args then goto Capture s
      else
        let s := emit [cv2_imshow heatmap; cv2_waitKey (key i)] s in
        if quit_pressed (key i) then goto (Finally QuitKey) s else goto Capture s
  | Finally why =>
      goto (Joining why) (emit release_calls (with_server (server s) false s))
  | Joining why =>
      if forallb handler_done (handlers s) then goto (Stopped why) (emit farewell s)
      else s
  | Stopped _ => s
  end.

(** [except KeyboardInterrupt]: inside the [try] block the interrupt is
    caught, and the [finally] block follows; an interrupt that arrives in the
    [finally] block cuts it short. *)
Definition interrupt (s : System) : System :=
  match main s with
  | Capture | Overlay _ _ | Update _ | Display _ =>
      goto (Finally Interrupt) (emit [print (LF +:+ "Stopping capture...")] s)
  | Finally why | Joining why => goto (Stopped why) s
  | Stopped _ => s
  end.

(** A handler thread, from one point to the next. *)
Definition handler_step (s : System) (self : Handler) (fail : option nat) : Handler :=
  match pc self with
  | DoGET => do_GET self fail
  | StreamLoop => stream_read (server s) self
  | Encode frame =>
      match heap s !! frame with
      | Some pixels => stream_write pixels self fail
      | None => {| path := path self; pc := Finished;
                   calls := calls self ++ [print_streaming_error] |}
      end
  | Finished => self
  end.

Definition step (a : Action) (s : System) : System :=
  match a with
  | Main i => main_step i s
  | KeyboardInterrupt => interrupt s
  | Request p =>
      if serving s then
        with_handlers (handlers s ++ [{| path := p; pc := DoGET; calls := [] |}]) s
      else s
  | Handle c fail =>
      match handlers s !! c with
      | Some self => with_handlers (<[c := handler_step s self fail]> (handlers s)) s
      | None => s
      end
  end.

Fixpoint run (script : list Action) (s : System) : System :=
  match script with
  | [] => s
  | a :: script' => run script' (step a s)
  end.

(** Actions of the HTTP side only. *)
Definition http_action (a : Action) : bool :=
  match a with
  | Request _ | Handle _ _ => true
  | Main _ | KeyboardInterrupt => false
  end.

(** The array [r] holds the finished picture of a frame the camera gave. *)
Definition annotated (s : System) (r : ref) : Prop :=
  ∃ frame temp heatmap,
    cap_read (Some frame) ∈ log s
    ∧ process cfg frame = Some (temp, heatmap)
    ∧ heap s !! r = Some (overlay temp heatmap).

Definition published (s : System) (r : ref) : Prop :=
  server_set_frame r ∈ log s.

(** The calls of one whole part. *)
Definition part_calls (jpeg : bytes) : list Call :=
  wfile_write <$> part_chunks jpeg.

(** The calls of a handler that is in its stream loop: the response head,
    then one whole part for each frame sent, each the JPEG of the content of
    a published array. *)
Inductive streamed (s : System) : list Call -> Prop :=
| streamed_head : streamed s stream_head
| streamed_part cs r pixels :
    streamed s cs -> published s r -> heap s !! r = Some pixels ->
    streamed s (cs ++ part_calls (imencode_jpg pixels)).

(** What a handler that has returned has called, by route. *)
Definition finished_ok (self : Handler) : Prop :=
  if String.eqb (path self) "/" then
    ∃ fail, calls self
            = [send_response 200; send_header "Content-type" "text/html";
               end_headers] ++ (writes [page] fail).1
  else if String.eqb (path self) "/stream" then True
  else calls self = [send_error 404; end_headers].

Definition handler_ok (s : System) (self : Handler) : Prop :=
  match pc self with
  | DoGET => calls self = []
  | StreamLoop => path self = "/stream" ∧ streamed s (calls self)
  | Encode r => path self = "/stream" ∧ published s r ∧ streamed s (calls self)
  | Finished => finished_ok self
  end.

(** The array the main thread is working on: before [putText] it holds the
    colour-mapped picture and nobody else has it; after [putText] it is
    finished. *)
Definition main_ok (s : System) : Prop :=
  match main s with
  | Overlay r temp =>
      ¬ published s r
      ∧ ∃ frame heatmap,
          cap_read (Some frame) ∈ log s
          ∧ process cfg frame = Some (temp, heatmap)
          ∧ heap s !! r = Some heatmap
  | Update r => annotated s r
  | _ => True
  end.

(** The invariant of the interleaved system. *)
Record Inv (s : System) : Prop := {
  inv_published : ∀ r, published s r -> annotated s r;
  inv_store : ∀ r, get_frame (server s) = Some r -> published s r;
  inv_main : main_ok s;
  inv_handlers : ∀ c self, handlers s !! c = Some self -> handler_ok s self;
}.

(** [s'] is later than [s]: nothing was taken from the log, and no published
    array was written to. *)
Definition extends (s s' : System) : Prop :=
  (∀ e, e ∈ log s -> e ∈ log s')
  ∧ (∀ r, published s r -> heap s' !! r = heap s !! r).

(** No [server.set_frame] call has been made yet. *)
Definition is_set_frame (e : Effect) : bool :=
  match e with
  | server_set_frame _ => true
  | _ => false
  end.

Definition nothing_published (s : System) : bool :=
  forallb (λ e, negb (is_set_frame e)) (log s).

(** The effects that need the display window or the keyboard. *)
Definition is_display (e : Effect) : bool :=
  match e with
  | cv2_imshow _ | cv2_waitKey _ | cv2_destroyAllWindows => true
  | _ => false
  end.

(** The action is a step of handler [c]. *)
Definition runs_handler (c : nat) (a : Action) : bool :=
  match a with
  | Handle c' _ => Nat.eqb c' c
  | _ => false
  end.

(** The main thread has left the loop for the reason [why]. *)
Definition left_loop (s : System) (why : Exit) : Prop :=
  main s = Finally why ∨ main s = Joining why ∨ main s = Stopped why.

(** Past the loop the log, [log0] when the loop was left, grows by the
    [finally] block at most. *)
Definition after_loop (why : Exit) (log0 : list Effect) (s : System) : Prop :=
  (main s = Finally why ∧ log s = log0)
  ∨ (main s = Joining why ∧ log s = log0 ++ release_calls)
  ∨ (main s = Stopped why
     ∧ (log s = log0
        ∨ log s = log0 ++ release_calls
        ∨ log s = log0 ++ release_calls ++ farewell)).

(** A frame the camera gave on which the pass raised: the decode did not
    find its reading, or an image operation refused the picture. *)
Definition raised (s : System) : Prop :=
  ∃ frame, cap_read (Some frame) ∈ log s ∧ process cfg frame = None.

(** What holds of every state of a headless run: nothing was shown or polled,
    the loop was not left through the quit key, and when it was left by an
    exception, that was on a frame the camera gave. *)
Definition headless_ok (s : System) : Prop :=
  forallb (λ e, negb (is_display e)) (log s) = true
  ∧ ∀ why, left_loop s why ->
           why ≠ QuitKey ∧ (why = Exception -> raised s).

End program.
End Program.

(** ** A symbolic implementation of the external interface

    Pictures are the terms built from the operations: two pictures are equal
    exactly when they were made by the same calls in the same order.  An
    operation fails on what OpenCV refuses for its shape or size.  It serves
    to run the model on concrete inputs. *)

Module Symbolic.
Import Cv2.

Inductive Picture :=
| CvtColor (src : RawFrame) (code : ColorConversionCode)
| ConvertScaleAbs (src : Picture) (alpha : float)
| Resize (src : Picture) (dsize : Z * Z) (interpolation : InterpolationFlags)
| Blur (src : Picture) (ksize : Z * Z)
| ApplyColorMap (src : Picture) (colormap : ColormapTypes)
| PutText (img : Picture) (text : string) (org : Z * Z) (fontFace : HersheyFonts)
    (fontScale : Z) (color : Z * Z * Z) (thickness : Z).

(** How many operations made the picture: the stand-in for its JPEG bytes. *)
Fixpoint depth (p : Picture) : nat :=
  match p with
  | CvtColor _ _ => 1
  | ConvertScaleAbs p _ | Resize p _ _ | Blur p _ | ApplyColorMap p _
  | PutText p _ _ _ _ _ _ => S (depth p)
  end.

(** What [cvtColor] asks of a YUYV image: at least one row, rows of one
    length, an even number of pixels in each, two bytes in each pixel. *)
Definition yuyv (src : RawFrame) : bool :=
  match src with
  | [] => false
  | row :: _ =>
      Nat.ltb 0 (length row) && Nat.even (length row)
      && forallb (λ r, Nat.eqb (length r) (length row)
                       && forallb (λ pixel, Nat.eqb (length pixel) 2) r) src
  end.

#[export] Instance symbolic : External Picture := {|
  cvtColor src code := if yuyv src then Some (CvtColor src code) else None;
  convertScaleAbs src alpha := Some (ConvertScaleAbs src alpha);
  resize src dsize interpolation :=
    if (0 <? dsize.1) && (0 <? dsize.2) then Some (Resize src dsize interpolation)
    else None;
  blur src ksize :=
    if (0 <? ksize.1) && (0 <? ksize.2) then Some (Blur src ksize) else None;
  applyColorMap src colormap := Some (ApplyColorMap src colormap);
  putText := PutText;
  imencode_jpg p := string_of_list_ascii (replicate (depth p) "J"%char);
  format_1f t := if PrimFloat.ltb t 0 then "-" else "+";
|}.

End Symbolic.

(** ** Concrete runs *)

Module Examples.
Import Thermal Http Program Symbolic.

(** The command line [--headless], and the default one. *)
Definition headless_args : Args := {| device := 0; port := 8000; headless := true |}.
Definition default_args : Args := {| device := 0; port := 8000; headless := false |}.

(** Camera answers: a frame reading the bytes [7; 46] everywhere, one reading
    [200; 75], a failed read; no key is pressed ([waitKey] gives -1). *)
Definition frame_a : Input := {| camera := Frame (uniform_frame 7 46); key := -1 |}.
Definition frame_b : Input := {| camera := Frame (uniform_frame 200 75); key := -1 |}.
Definition no_frame : Input := {| camera := NoFrame; key := -1 |}.

(** A client connects to ['/stream'] and polls twice while the first frame is
    being captured and annotated; nothing is published yet. *)
Definition early_client : list Action :=
  [Request "/stream"; Handle 0 None; Handle 0 None; Main frame_a;
   Handle 0 None; Main frame_a; Handle 0 None].

(** The first frame gets published, the client reads it, and while the client
    still holds it the main thread captures and annotates the next frame. *)
Definition first_publish : list Action :=
  early_client ++ [Main frame_a; Handle 0 None].

Definition next_capture : list Action :=
  [Main frame_a; Main frame_b; Main frame_b; Request "/"; Handle 1 None;
   Main frame_b; Main frame_b].

End Examples.

(** ** Platform detection: [is_raspberrypi] *)

Module Platform.

(** [str.lower()], on ASCII text: the letters [A]-[Z] move to [a]-[z], every
    other character stays.  (The device-tree model string is ASCII; on other
    text Python's [lower] follows Unicode.) *)
Definition lower_char (c : ascii) : ascii :=
  let n := nat_of_ascii c in
  if Nat.leb 65 n && Nat.leb n 90 then ascii_of_nat (n + 32) else c.

Fixpoint lower (s : string) : string :=
  match s with
  | EmptyString => EmptyString
  | String c s' => String (lower_char c) (lower s')
  end.

(** The text holds ASCII characters only; on such text a [str] is its bytes
    and [lower] above is Python's. *)
Definition isascii (s : string) : bool :=
  forallb (λ c, Nat.ltb (nat_of_ascii c) 128) (list_ascii_of_string s).

(** [needle in hay], for strings. *)
Fixpoint contains (needle hay : string) : bool :=
  String.prefix needle hay
  || match hay with
     | EmptyString => false
     | String _ hay' => contains needle hay'
     end.

(** [[
    def is_raspberrypi():
        try:
            with io.open('/sys/firmware/devicetree/base/model', 'r') as m:
                if 'raspberry pi' in m.read().lower(): return True
        except Exception: pass
        return False
    ]]
    [model] is what reading the file gives, [None] when [io.open] or [read]
    raises. *)
Definition is_raspberrypi (model : option string) : bool :=
  match model with
  | Some text => if contains "raspberry pi" (lower text) then true else false
  | None => false
  end.

End Platform.

(** ** Where the halves of a frame lie *)

Module Layout.

(** The number of rows [np.array_split(frame, 2)] gives the first section:
    half of them, and the odd one. *)
Definition visual_rows (frame : RawFrame) : nat :=
  Nat.div (length frame) 2 + Nat.modulo (length frame) 2.

(** Every row has at least 129 pixels of at least two bytes. *)
Definition wide_enough (frame : RawFrame) : Prop :=
  Forall (λ row : list (list Z),
            (129 <= length row)%nat ∧ Forall (λ px : list Z, (2 <= length px)%nat) row)
    frame.

End Layout.

(** ** Reading the log *)

Module Trace.
Import Thermal Cv2 Pipeline Http Program.

(** The arrays handed to [server.set_frame], to [cv2.imshow], and the frames
    [cap.read] gave, each in order. *)
Definition set_frames (l : list Effect) : list nat :=
  omap (λ e, match e with server_set_frame r => Some r | _ => None end) l.

Definition shown (l : list Effect) : list nat :=
  omap (λ e, match e with cv2_imshow r => Some r | _ => None end) l.

Definition reads (l : list Effect) : list RawFrame :=
  omap (λ e, match e with cap_read (Some frame) => Some frame | _ => None end) l.

(** [n] passes of handler [c] through its stream loop, no write failing:
    each pass is the read and the encode-and-write. *)
Fixpoint passes (c n : nat) : list Action :=
  match n with
  | O => []
  | S n' => Handle c None :: Handle c None :: passes c n'
  end.

(** [n] copies of the calls of one part. *)
Fixpoint repeated (n : nat) (part : list Call) : list Call :=
  match n with
  | O => []
  | S n' => part ++ repeated n' part
  end.

(** The action leaves handler [c] alone and is no interrupt. *)
Definition spares (c : nat) (a : Action) : bool :=
  match a with
  | Handle c' _ => negb (Nat.eqb c' c)
  | KeyboardInterrupt => false
  | _ => true
  end.

Section trace.
Context {Mat : Type} `{!External Mat}.
Variable args : Args.

(** The main thread is inside the [try] block. *)
Definition in_loop (s : @System Mat) : bool :=
  match main s with
  | Capture | Overlay _ _ | Update _ | Display _ => true
  | _ => false
  end.

(** How the log, the frame store and the arrays hang together in every
    state: the store holds the last array published; published arrays are
    distinct and exist; the array in the making is not published yet; one
    publish goes with one frame read; the window is shown what is published. *)
Record Trace_inv (s : @System Mat) : Prop := {
  tr_store : get_frame (server s) = last (set_frames (log s));
  tr_distinct : NoDup (set_frames (log s));
  tr_alive : ∀ r, r ∈ set_frames (log s) -> (r < length (heap s))%nat;
  tr_pending :
    match main s with
    | Overlay r _ | Update r =>
        (r < length (heap s))%nat ∧ r ∉ set_frames (log s)
    | _ => True
    end;
  tr_count :
    match main s with
    | Capture | Display _ =>
        length (reads (log s)) = length (set_frames (log s))
    | Overlay _ _ | Update _ =>
        length (reads (log s)) = S (length (set_frames (log s)))
    | _ =>
        length (reads (log s)) = length (set_frames (log s))
        ∨ length (reads (log s)) = S (length (set_frames (log s)))
    end;
  tr_shown :
    if headless args then shown (log s) = []
    else
      match main s with
      | Capture | Overlay _ _ | Update _ => set_frames (log s) = shown (log s)
      | Display r => set_frames (log s) = shown (log s) ++ [r]
      | _ =>
          set_frames (log s) = shown (log s)
          ∨ ∃ r, set_frames (log s) = shown (log s) ++ [r]
      end;
}.

End trace.
End Trace.

(** ** More concrete runs *)

Module MoreExamples.
Import Thermal Cv2 Http Program Symbolic Examples.

(** The picture the symbolic interface makes of [frame_a]. *)
Definition picture_a : Picture :=
  PutText
    (ApplyColorMap
       (Resize
          (ConvertScaleAbs (CvtColor (take 192 (uniform_frame 7 46)) COLOR_YUV2BGR_YUYV)
             1.0%float)
          (768, 576) INTER_CUBIC)
       COLORMAP_JET)
    "-C" (10, 30) FONT_HERSHEY_SIMPLEX 1 (255, 255, 255) 2.

(** [q] with a modifier flag in the higher bits of the key code. *)
Definition q_key : Input := {| camera := Closed; key := 1048689 |}.

(** A frame one row short of the 194 the decode needs. *)
Definition short_frame : RawFrame := replicate 193 (replicate 256 [7; 46]).

(** A frame that has the reading, with rows of an odd number of pixels. *)
Definition odd_frame : RawFrame := replicate 194 (replicate 129 [7; 46]).

Definition short_input : Input := {| camera := Frame short_frame; key := -1 |}.
Definition odd_input : Input := {| camera := Frame odd_frame; key := -1 |}.

(** With a window: one frame captured, published and shown, the next one
    published and about to be shown. *)
Definition windowed : list Action :=
  [Main frame_a; Main frame_a; Main frame_a; Main frame_a;
   Main frame_b; Main frame_b; Main frame_b].

(** A client streams, the camera fails, and the main thread reaches
    [server_close]. *)
Definition failing_camera : list Action :=
  [Request "/stream"; Handle 0 None; Main no_frame; Main no_frame].

Definition waiting : list Action :=
  [Main no_frame; Handle 1 None; Request "/"; Main no_frame].

End MoreExamples.

(** ** Which frame each published array shows *)

Module Order.
Import Thermal Cv2 Pipeline Http Program Trace.

Section order.
Context {Mat : Type} `{!External Mat}.
Variable cfg : Settings.

(** The array [r] holds the finished picture of [frame]. *)
Definition picture_of (s : @System Mat) (r : nat) (frame : RawFrame) : Prop :=
  ∃ temp heatmap,
    process cfg frame = Some (temp, heatmap)
    ∧ heap s !! r = Some (overlay temp heatmap).

(** The [i]-th array published shows the [i]-th frame read, and the array in
    the making shows the frame read last. *)
Record Order_inv (s : @System Mat) : Prop := {
  ord_published :
    ∀ i r, set_frames (log s) !! i = Some r ->
           ∃ frame, reads (log s) !! i = Some frame ∧ picture_of s r frame;
  ord_pending :
    match main s with
    | Overlay r temp =>
        ∃ frame heatmap,
          reads (log s) !! length (set_frames (log s)) = Some frame
          ∧ process cfg frame = Some (temp, heatmap)
          ∧ heap s !! r = Some heatmap
    | Update r =>
        ∃ frame,
          reads (log s) !! length (set_frames (log s)) = Some frame
          ∧ picture_of s r frame
    | _ => True
    end;
}.

End order.
End Order.

(** ** Proof steps that recur *)

(** Closes [extends s s'] when the step only appended to the log. *)
Ltac log_grows := split; simpl; intros; (done || set_solver).

(** Closes [∀ r, published s' r -> published s r] when the step appended
    effects other than [server_set_frame] to the log. *)
Ltac no_publish :=
  unfold Program.published; simpl; intros ? [?|Hnew]%elem_of_app; [done|];
  repeat (apply elem_of_cons in Hnew as [?|Hnew]; [discriminate|]);
  by apply elem_of_nil in Hnew.

(** Brings the readings of a log that a step extended to the readings of the
    log before the step. *)
Ltac trace_norm :=
  unfold Trace.set_frames, Trace.shown, Trace.reads in *; simpl;
  rewrite ?omap_app; simpl; rewrite ?(right_id_L [] (++)).

(** * Theorems *)

(** ** NumPy and the temperature decode *)

Section thermal_facts.
Import Numpy Thermal.

Lemma int64_small z : - 2 ^ 63 <= z < 2 ^ 63 -> int64 z = z.
Proof. intros Hz. unfold int64. rewrite Z.mod_small; lia. Qed.

(** The scalar arithmetic of the decode never wraps on bytes. *)
Lemma rawtemp_no_wrap hi lo :
  uint8 hi -> uint8 lo ->
  int64 (hi + int64 (lo * 256)) = lo * 256 + hi
  ∧ 0 <= lo * 256 + hi < 65536.
Proof.
  unfold uint8. intros Hhi Hlo.
  rewrite (int64_small (lo * 256)) by lia.
  rewrite int64_small by lia. lia.
Qed.

Lemma decode_temp_bytes thdata b0 b1 :
  thdata_96_128 thdata 0 = Some b0 ->
  thdata_96_128 thdata 1 = Some b1 ->
  uint8 b0 -> uint8 b1 ->
  decode_temp thdata = Some (temp_of_bytes b0 b1).
Proof.
  intros H0 H1 Hb0 Hb1. unfold decode_temp, temp_of_bytes.
  rewrite H0, H1. simpl.
  destruct (rawtemp_no_wrap b0 b1 Hb0 Hb1) as [-> _]. reflexivity.
Qed.

(** An even number of rows splits into two halves of equal height. *)
Lemma split_frame_even (frame : RawFrame) n :
  length frame = (2 * n)%nat ->
  split_frame frame = Some (take n frame, drop n frame).
Proof.
  intros Hlen.
  assert (Hmod : Nat.modulo (2 * n) 2 = 0%nat)
    by (rewrite (Nat.mul_comm 2 n); apply Nat.Div0.mod_mul).
  assert (Hdiv : Nat.div (2 * n) 2 = n)
    by (rewrite (Nat.mul_comm 2 n); apply Nat.div_mul; lia).
  unfold split_frame, array_split, section_sizes.
  rewrite Hlen, Hmod, Hdiv. simpl.
  rewrite (take_ge (drop n frame)) by (rewrite length_drop; lia).
  reflexivity.
Qed.

Lemma thermal_bytes_inv frame b0 b1 :
  thermal_bytes frame = Some (b0, b1) ->
  ∃ imdata thdata,
    split_frame frame = Some (imdata, thdata)
    ∧ thdata_96_128 thdata 0 = Some b0
    ∧ thdata_96_128 thdata 1 = Some b1.
Proof.
  unfold thermal_bytes. intros H.
  destruct (split_frame frame) as [[imdata thdata]|]; [|discriminate].
  simpl in H.
  destruct (thdata_96_128 thdata 0) as [x|] eqn:H0; [|discriminate]. simpl in H.
  destruct (thdata_96_128 thdata 1) as [y|] eqn:H1; [|discriminate]. simpl in H.
  injection H as -> ->. by exists imdata, thdata.
Qed.

Lemma all_from_spec n z p :
  all_from n z p = true -> ∀ k, z <= k < z + Z.of_nat n -> p k = true.
Proof.
  revert z. induction n as [|n IH]; intros z Hall k Hk; [lia|].
  simpl in Hall. apply andb_prop in Hall as [Hz Hall].
  destruct (decide (k = z)) as [->|Hne]; [done|].
  apply (IH (z + 1) Hall). lia.
Qed.

(** On each of the 65536 readings the floating-point result is the exact
    value of the formula up to [2^-45]: the one rounding is that of the
    constant 273.15. *)
Lemma temp_of_raw_accuracy raw :
  0 <= raw < 65536 ->
  within (Qmake 1 (2 ^ 45)) (temp_of_raw raw) (exact_temp raw) = true.
Proof.
  apply (all_from_spec (Z.to_nat 65536) 0
           (λ raw, within (Qmake 1 (2 ^ 45)) (temp_of_raw raw) (exact_temp raw))).
  vm_compute. reflexivity.
Qed.

(** C1, as the code has it: for every captured frame whose thermal reading at
    row 96, column 128 consists of the bytes [first] and [second], the
    decoded temperature is [((second*256 + first) / 64) - 273.15]: the byte
    that is multiplied by 256 is the second one.  The equation holds of the
    floating-point expression, whose value is within [2^-45] of the rational
    number the formula denotes. *)
Theorem temperature_second_byte_significant frame first second :
  thermal_bytes frame = Some (first, second) ->
  uint8 first -> uint8 second ->
  frame_temp frame
  = Some (float_of_Z (second * 256 + first) / 64 - 273.15)%float
  ∧ within (Qmake 1 (2 ^ 45))
      (float_of_Z (second * 256 + first) / 64 - 273.15)%float
      (Qmake (second * 256 + first) 64 - Qmake 27315 100)%Q = true.
Proof.
  intros (imdata & thdata & Hsplit & H0 & H1)%thermal_bytes_inv Hb0 Hb1. split.
  - unfold frame_temp. rewrite Hsplit. simpl.
    by apply decode_temp_bytes.
  - apply (temp_of_raw_accuracy (second * 256 + first)).
    by apply rawtemp_no_wrap.
Qed.

Lemma temperature_second_byte_significant_witness :
  thermal_bytes (uniform_frame 7 46) = Some (7, 46)
  ∧ frame_temp (uniform_frame 7 46)
    = Some (float_of_Z (46 * 256 + 7) / 64 - 273.15)%float.
Proof.
  split; [vm_compute; reflexivity|].
  apply temperature_second_byte_significant;
    [vm_compute; reflexivity | unfold uint8; lia | unfold uint8; lia].
Defined.

(** C1, as the claim words it, fails: with first byte 64 and second byte 0
    the claim's formula gives [256 - 273.15], about -17.15, while the code
    computes [1 - 273.15]; the two are 255 apart. *)
Lemma temperature_first_byte_not_significant :
  thermal_bytes (uniform_frame 64 0) = Some (64, 0)
  ∧ frame_temp (uniform_frame 64 0) = Some (-272.15)%float
  ∧ PrimFloat.ltb (-17.2) (spec_formula 64 0) = true
  ∧ PrimFloat.ltb (spec_formula 64 0) (-17.1) = true
  ∧ within (Qmake 1 (2 ^ 45)) (-272.15)%float (exact_temp (64 * 256 + 0)) = false
  ∧ frame_temp (uniform_frame 64 0) ≠ Some (spec_formula 64 0).
Proof.
  do 5 (split; [vm_compute; reflexivity|]).
  intros H.
  apply (f_equal (fun o => match o with
                           | Some t => PrimFloat.eqb t (-272.15)%float
                           | None => false
                           end)) in H.
  vm_compute in H. discriminate H.
Qed.

(** C2: the decoded temperature depends on the frame through the two thermal
    bytes only; bytes [0, 0] give -273.15 and bytes [64, 0] give
    [(64/64) - 273.15 = -272.15]. *)
Theorem temperature_function_of_two_bytes :
  (∀ frame frame' b,
      thermal_bytes frame = Some b -> thermal_bytes frame' = Some b ->
      frame_temp frame = frame_temp frame')
  ∧ (∀ frame, thermal_bytes frame = Some (0, 0) ->
              frame_temp frame = Some (-273.15)%float)
  ∧ (∀ frame, thermal_bytes frame = Some (64, 0) ->
              frame_temp frame = Some (-272.15)%float
              ∧ (-272.15 = 64 / 64 - 273.15)%float).
Proof.
  assert (Hbytes : ∀ frame b0 b1, thermal_bytes frame = Some (b0, b1) ->
    frame_temp frame
    = Some (float_of_Z (int64 (b0 + int64 (b1 * 256))) / 64 - 273.15)%float).
  { intros frame b0 b1 (imdata & thdata & Hsplit & H0 & H1)%thermal_bytes_inv.
    unfold frame_temp, decode_temp. rewrite Hsplit. simpl.
    rewrite H0, H1. reflexivity. }
  split; [|split].
  - intros frame frame' [b0 b1] H H'.
    by rewrite (Hbytes _ _ _ H), (Hbytes _ _ _ H').
  - intros frame H. rewrite (Hbytes _ _ _ H). vm_compute. reflexivity.
  - intros frame H. rewrite (Hbytes _ _ _ H). split; vm_compute; reflexivity.
Qed.

Lemma temperature_function_of_two_bytes_witness :
  frame_temp (uniform_frame 0 0) = Some (-273.15)%float
  ∧ frame_temp (uniform_frame 64 0) = Some (-272.15)%float.
Proof.
  destruct temperature_function_of_two_bytes as (_ & Hzero & Hone).
  split.
  - apply Hzero. vm_compute. reflexivity.
  - apply Hone. vm_compute. reflexivity.
Defined.

End thermal_facts.

(** ** The interleaved system: monotonicity and the invariant *)

Section program_facts.
Import Thermal Cv2 Pipeline Http Program.
Context {Mat : Type} `{!External Mat}.
Variable cfg : Settings.
Variable args : Args.

Implicit Types (s : @System Mat) (r : ref) (self : Handler).

Lemma extends_refl s : extends s s.
Proof. by split. Qed.

Lemma published_extends s s' r : extends s s' -> published s r -> published s' r.
Proof. intros [Hlog _]. apply Hlog. Qed.

Lemma extends_trans s1 s2 s3 : extends s1 s2 -> extends s2 s3 -> extends s1 s3.
Proof.
  intros H12 H23. split.
  - intros e He. apply H23, H12, He.
  - intros r Hr. destruct H12 as [Hlog12 Hheap12], H23 as [_ Hheap23].
    rewrite Hheap23 by (apply Hlog12, Hr). by apply Hheap12.
Qed.

Lemma annotated_later s s' r :
  (∀ e, e ∈ log s -> e ∈ log s') -> heap s' !! r = heap s !! r ->
  annotated cfg s r -> annotated cfg s' r.
Proof.
  intros Hlog Hheap (frame & temp & heatmap & Hread & Hproc & Hpix).
  exists frame, temp, heatmap. rewrite Hheap. auto.
Qed.

Lemma annotated_extends s s' r :
  extends s s' -> published s r -> annotated cfg s r -> annotated cfg s' r.
Proof. intros [Hlog Hheap] Hr. apply annotated_later; auto. Qed.

Lemma streamed_extends s s' cs : extends s s' -> streamed s cs -> streamed s' cs.
Proof.
  intros Hext. induction 1 as [|cs r pixels _ IH Hr Hpix].
  - constructor.
  - apply streamed_part with r; [exact IH | by eapply published_extends |].
    destruct Hext as [_ Hheap]. by rewrite Hheap.
Qed.

Lemma handler_ok_extends s s' self :
  extends s s' -> handler_ok s self -> handler_ok s' self.
Proof.
  intros Hext. unfold handler_ok. destruct (pc self); [done | | | done].
  - intros [? ?]. eauto using streamed_extends.
  - intros (? & ? & ?). eauto using streamed_extends, published_extends.
Qed.

(** The HTTP side touches nothing but the handlers. *)
Lemma http_step_frame a s :
  http_action a = true ->
  heap (step cfg args a s) = heap s
  ∧ server (step cfg args a s) = server s
  ∧ serving (step cfg args a s) = serving s
  ∧ main (step cfg args a s) = main s
  ∧ log (step cfg args a s) = log s.
Proof.
  destruct a as [i| |p|c fail]; try discriminate; intros _; simpl.
  - destruct (serving s) eqn:Hup; simpl; by rewrite ?Hup.
  - by destruct (handlers s !! c).
Qed.

Lemma http_run_frame script s :
  forallb http_action script = true ->
  heap (run cfg args script s) = heap s
  ∧ server (run cfg args script s) = server s
  ∧ serving (run cfg args script s) = serving s
  ∧ main (run cfg args script s) = main s
  ∧ log (run cfg args script s) = log s.
Proof.
  revert s. induction script as [|a script IH]; intros s Hall; [done|].
  simpl in Hall. apply andb_prop in Hall as [Ha Hall].
  simpl. destruct (IH (step cfg args a s) Hall) as (-> & -> & -> & -> & ->).
  by apply http_step_frame.
Qed.

(** The main thread touches nothing but its own: the handlers stay. *)
Lemma main_step_handlers i s : handlers (main_step cfg args i s) = handlers s.
Proof.
  unfold main_step.
  destruct (main s); simpl; try done.
  - destruct (camera i); simpl; try done.
    by destruct (process cfg frame) as [[? ?]|].
  - destruct (headless args); simpl; [done|]. by destruct (quit_pressed (key i)).
  - by destruct (forallb handler_done (handlers s)).
Qed.

Lemma interrupt_handlers s : handlers (interrupt s) = handlers s.
Proof. unfold interrupt. by destruct (main s). Qed.

(** Every step leaves the log and the published arrays as they were. *)
Lemma step_extends a s : Inv cfg s -> extends s (step cfg args a s).
Proof.
  intros HI.
  destruct (http_action a) eqn:Hhttp.
  { destruct (http_step_frame a s Hhttp) as (Hheap & _ & _ & _ & Hlog).
    split; intros; [by rewrite Hlog | by rewrite Hheap]. }
  destruct a as [i| |p|c fail]; try discriminate; simpl.
  - unfold main_step. destruct (main s) as [|r temp|r|r|why|why|why] eqn:Hmain.
    + destruct (camera i) as [| |frame]; simpl; [log_grows..|].
      destruct (process cfg frame) as [[temp heatmap]|]; simpl; [|log_grows].
      split; simpl; [set_solver|].
      intros r Hr.
      destruct (inv_published _ _ HI r Hr) as (? & ? & ? & _ & _ & Hpix).
      rewrite Hpix. by apply lookup_app_l_Some.
    + split; simpl; [done|]. intros r' Hr'.
      pose proof (inv_main _ _ HI) as Hm. unfold main_ok in Hm.
      rewrite Hmain in Hm. destruct Hm as [Hfresh _].
      apply list_lookup_alter_ne. by intros ->.
    + log_grows.
    + destruct (headless args); simpl; [log_grows|].
      destruct (quit_pressed (key i)); log_grows.
    + log_grows.
    + destruct (forallb handler_done (handlers s)); log_grows.
    + log_grows.
  - unfold interrupt. destruct (main s); log_grows.
Qed.

Lemma Inv_init : Inv cfg init.
Proof.
  split.
  - intros r Hr. unfold published in Hr. simpl in Hr. set_solver.
  - discriminate.
  - exact I.
  - intros c self Hc. simpl in Hc. by rewrite lookup_nil in Hc.
Qed.

(** A sequence of writes that all succeed made every call. *)
Lemma writes_ok chunks fail cs :
  writes chunks fail = (cs, true) -> cs = wfile_write <$> chunks.
Proof.
  revert fail cs. induction chunks as [|data chunks IH]; intros fail cs; simpl.
  - by intros [= <-].
  - destruct fail as [[|k]|]; [discriminate | |];
      (destruct (writes chunks _) as [cs' ok] eqn:Hw; intros [= <- ->];
       by rewrite (IH _ _ Hw)).
Qed.

Lemma writes_no_failure chunks : writes chunks None = (wfile_write <$> chunks, true).
Proof.
  induction chunks as [|data chunks IH]; simpl; [done|]. by rewrite IH.
Qed.

Lemma handler_step_ok s self fail :
  Inv cfg s -> handler_ok s self -> handler_ok s (handler_step s self fail).
Proof.
  intros HI. unfold handler_ok at 1, handler_step.
  destruct (pc self) as [| |r|] eqn:Hpc.
  - intros Hcalls. unfold do_GET, handler_ok, finished_ok.
    destruct (String.eqb (path self) "/") eqn:Hroot; simpl.
    { rewrite Hroot, Hcalls. by exists fail. }
    destruct (String.eqb (path self) "/stream") eqn:Hstream; simpl.
    { rewrite Hcalls. split; [by apply String.eqb_eq | constructor]. }
    by rewrite Hroot, Hstream, Hcalls.
  - intros [Hpath Hcs]. unfold stream_read.
    destruct (get_frame (server s)) as [r|] eqn:Hget.
    + unfold handler_ok. simpl. split_and!; [done | | done].
      by apply (inv_store _ _ HI).
    + unfold handler_ok. by rewrite Hpc.
  - intros (Hpath & Hr & Hcs).
    destruct (heap s !! r) as [pixels|] eqn:Hpix.
    + unfold stream_write.
      destruct (writes (part_chunks (imencode_jpg pixels)) fail) as [cs ok] eqn:Hw.
      destruct ok; unfold handler_ok, finished_ok; simpl.
      * split; [done|]. apply writes_ok in Hw as ->.
        by apply streamed_part with r.
      * by rewrite Hpath.
    + unfold handler_ok, finished_ok. simpl. by rewrite Hpath.
  - intros Hfin. unfold handler_ok. by rewrite Hpc.
Qed.

(** A step that publishes nothing and leaves server and handlers alone keeps
    the invariant as soon as the main thread's own clause holds. *)
Lemma Inv_quiet s s' :
  Inv cfg s -> extends s s' ->
  (∀ r, published s' r -> published s r) ->
  server s' = server s -> handlers s' = handlers s ->
  main_ok cfg s' -> Inv cfg s'.
Proof.
  intros HI Hext Hpub Hsrv Hhs Hmain. split.
  - intros r Hr. apply Hpub in Hr as Hr0.
    eapply annotated_extends; [done.. |]. by apply (inv_published _ _ HI).
  - intros r Hr. rewrite Hsrv in Hr.
    eapply published_extends; [done|]. by apply (inv_store _ _ HI).
  - done.
  - intros c self Hc. rewrite Hhs in Hc.
    eapply handler_ok_extends; [done|]. by apply (inv_handlers _ _ HI c).
Qed.

Lemma Inv_main_step i s : Inv cfg s -> Inv cfg (main_step cfg args i s).
Proof.
  intros HI.
  pose proof (step_extends (Main i) s HI) as Hext. simpl in Hext.
  pose proof (main_step_handlers i s) as Hhs.
  revert Hext Hhs. unfold main_step.
  destruct (main s) as [|r temp|r|r|why|why|why] eqn:Hmain.
  - destruct (camera i) as [| |frame]; simpl.
    + intros. apply Inv_quiet with s; try done. no_publish.
    + intros. apply Inv_quiet with s; try done. no_publish.
    + destruct (process cfg frame) as [[temp heatmap]|] eqn:Hproc; simpl.
      * intros. apply Inv_quiet with s; try done.
        { no_publish. }
        unfold main_ok, published. simpl. split.
        -- intros Hr. apply elem_of_app in Hr. destruct Hr as [Hr|Hnew].
           2: { repeat (apply elem_of_cons in Hnew as [?|Hnew]; [discriminate|]).
                by apply elem_of_nil in Hnew. }
           destruct (inv_published _ _ HI _ Hr) as (? & ? & ? & _ & _ & Hpix).
           apply lookup_lt_Some in Hpix. lia.
        -- exists frame, heatmap. split_and!; [set_solver | done |].
           by rewrite list_lookup_middle.
      * intros. apply Inv_quiet with s; try done. no_publish.
  - simpl. intros. apply Inv_quiet with s; try done.
    pose proof (inv_main _ _ HI) as Hm. unfold main_ok in Hm. rewrite Hmain in Hm.
    destruct Hm as (_ & frame & heatmap & Hread & Hproc & Hpix).
    unfold main_ok. simpl. exists frame, temp, heatmap. simpl.
    split_and!; [done..|]. by rewrite list_lookup_alter_eq, Hpix.
  - simpl. intros Hext _.
    pose proof (inv_main _ _ HI) as Hm. unfold main_ok in Hm. rewrite Hmain in Hm.
    split.
    + unfold published. simpl. intros r' [Hr'|Hr']%elem_of_app.
      * eapply annotated_extends; [done.. |]. by apply (inv_published _ _ HI).
      * apply list_elem_of_singleton in Hr' as [= ->].
        eapply annotated_later; [| |exact Hm]; [apply Hext | done].
    + simpl. intros r' [= <-]. unfold published. simpl. set_solver.
    + exact I.
    + simpl. intros c self Hc.
      eapply handler_ok_extends; [done|]. by apply (inv_handlers _ _ HI c).
  - destruct (headless args); simpl.
    + intros. by apply Inv_quiet with s.
    + destruct (quit_pressed (key i)); simpl; intros;
        (apply Inv_quiet with s; try done; no_publish).
  - simpl. intros. apply Inv_quiet with s; try done. no_publish.
  - destruct (forallb handler_done (handlers s)); simpl; [|done].
    intros. apply Inv_quiet with s; try done.
    unfold farewell. destruct (headless args); no_publish.
  - done.
Qed.

Lemma Inv_interrupt s : Inv cfg s -> Inv cfg (interrupt s).
Proof.
  intros HI.
  pose proof (step_extends KeyboardInterrupt s HI) as Hext. simpl in Hext.
  revert Hext. unfold interrupt.
  destruct (main s); simpl; intros; try done;
    (apply Inv_quiet with s; try done; no_publish).
Qed.

(** The invariant is kept by every step, hence by every run. *)
Lemma Inv_step a s : Inv cfg s -> Inv cfg (step cfg args a s).
Proof.
  intros HI. destruct a as [i| |p|c fail]; simpl.
  - by apply Inv_main_step.
  - by apply Inv_interrupt.
  - destruct (serving s); [|done].
    destruct HI as [Hpub Hstore Hmain Hhs]. split; try done.
    simpl. intros c self [Hc|[_ Hc]]%lookup_app_Some.
    + apply handler_ok_extends with s; [log_grows | by apply (Hhs c)].
    + apply list_lookup_singleton_Some in Hc as [_ <-]. done.
  - destruct (handlers s !! c) as [self0|] eqn:Hc0; [|done].
    pose proof HI as [Hpub Hstore Hmain Hhs]. split; try done.
    simpl. intros c' self Hc'.
    apply handler_ok_extends with s; [log_grows|].
    destruct (decide (c = c')) as [<-|Hne].
    + rewrite list_lookup_insert_eq in Hc' by (by eapply lookup_lt_Some).
      injection Hc' as <-.
      apply (handler_step_ok s self0 fail HI (Hhs c self0 Hc0)).
    + rewrite list_lookup_insert_ne in Hc' by done. by apply (Hhs c').
Qed.

Lemma Inv_run script s : Inv cfg s -> Inv cfg (run cfg args script s).
Proof.
  revert s. induction script as [|a script IH]; intros s HI; [done|].
  simpl. by apply IH, Inv_step.
Qed.

Lemma run_extends script s : Inv cfg s -> extends s (run cfg args script s).
Proof.
  revert s. induction script as [|a script IH]; intros s HI.
  - apply extends_refl.
  - simpl. eapply extends_trans; [by apply step_extends|]. by apply IH, Inv_step.
Qed.

Lemma run_app script script' s :
  run cfg args (script ++ script') s = run cfg args script' (run cfg args script s).
Proof.
  revert s. induction script as [|a script IH]; intros s; [done|]. simpl. apply IH.
Qed.

Lemma nothing_published_spec s r :
  nothing_published s = true -> ¬ published s r.
Proof.
  unfold nothing_published, published. intros Hall Hr.
  rewrite forallb_forall in Hall.
  apply list_elem_of_In in Hr. by specialize (Hall _ Hr).
Qed.

(** C3: the frame store is empty when the server is built, and a
    [get_frame] made before any [set_frame] returns [None], whatever the
    threads did so far. *)
Theorem get_frame_before_first_publish script :
  nothing_published (run cfg args script init) = true ->
  get_frame (server (run cfg args script init)) = None
  ∧ get_frame Server_init = None.
Proof.
  intros Hnone. split; [|done].
  destruct (get_frame (server (run cfg args script init))) as [r|] eqn:Hget; [|done].
  exfalso. apply (nothing_published_spec _ r Hnone).
  by apply (inv_store cfg _ (Inv_run script init Inv_init)).
Qed.

(** C5: whatever the interleaving, a read of the frame store that returns an
    array returns one that was published, and the array holds, then and at
    every later time, the finished picture of one camera frame; nor is it
    ever again the array [putText] is about to draw on.  So no reader sees a
    picture that is half one frame and half another. *)
Theorem reads_are_never_torn script script' r :
  get_frame (server (run cfg args script init)) = Some r ->
  ∃ frame temp heatmap,
    cap_read (Some frame) ∈ log (run cfg args script init)
    ∧ process cfg frame = Some (temp, heatmap)
    ∧ published (run cfg args script init) r
    ∧ heap (run cfg args script init) !! r = Some (overlay temp heatmap)
    ∧ heap (run cfg args script' (run cfg args script init)) !! r
      = Some (overlay temp heatmap)
    ∧ ∀ temp', main (run cfg args script' (run cfg args script init))
               ≠ Overlay r temp'.
Proof.
  intros Hget.
  pose proof (Inv_run script init Inv_init) as HI.
  pose proof (inv_store cfg _ HI r Hget) as Hr.
  destruct (inv_published cfg _ HI r Hr) as (frame & temp & heatmap & Hread & Hproc & Hpix).
  exists frame, temp, heatmap. split_and!; try done.
  - destruct (run_extends script' _ HI) as [_ Hheap]. by rewrite Hheap.
  - intros temp' Hmain.
    pose proof (inv_main cfg _ (Inv_run script' _ HI)) as Hm.
    unfold main_ok in Hm. rewrite Hmain in Hm. destruct Hm as [Hfresh _].
    apply Hfresh. by apply (published_extends _ _ r (run_extends script' _ HI)).
Qed.

(** *** What a handler sends *)

Lemma string_app_assoc (a b c : string) : (a +:+ b) +:+ c = a +:+ b +:+ c.
Proof.
  induction a as [|x a IH]; [done|].
  change (String x ((a +:+ b) +:+ c) = String x (a +:+ b +:+ c)). by rewrite IH.
Qed.

Lemma string_app_nil_r (a : string) : a +:+ "" = a.
Proof.
  induction a as [|x a IH]; [done|].
  change (String x (a +:+ "") = String x a). by rewrite IH.
Qed.

Lemma body_app cs1 cs2 : body (cs1 ++ cs2) = body cs1 +:+ body cs2.
Proof.
  induction cs1 as [|call cs1 IH]; simpl; [done|].
  destruct call; simpl; try done. by rewrite IH, string_app_assoc.
Qed.

(** The four writes of one iteration put exactly one part on the wire. *)
Lemma body_part_calls jpeg : body (part_calls jpeg) = multipart_part jpeg.
Proof.
  unfold part_calls, part_chunks, multipart_part. simpl.
  by rewrite !string_app_assoc, string_app_nil_r.
Qed.

(** In the stream loop the calls are the response head and then whole parts
    only. *)
Lemma streamed_body s cs :
  streamed s cs ->
  ∃ earlier jpegs,
    cs = stream_head ++ earlier
    ∧ body cs = foldr (λ jpeg rest, multipart_part jpeg +:+ rest) "" jpegs.
Proof.
  induction 1 as [|cs r pixels _ (earlier & jpegs & -> & Hbody) _ _].
  - by exists [], [].
  - exists (earlier ++ part_calls (imencode_jpg pixels)), (jpegs ++ [imencode_jpg pixels]).
    split; [symmetry; apply (assoc_L (++))|].
    rewrite body_app, Hbody, body_part_calls, foldr_app. simpl.
    generalize (multipart_part (imencode_jpg pixels)). intros part. clear Hbody.
    induction jpegs as [|jpeg jpegs IH]; simpl; [by rewrite string_app_nil_r|].
    by rewrite string_app_assoc, IH.
Qed.

Lemma handler_step_write s c self r pixels :
  handlers s !! c = Some self -> pc self = Encode r -> heap s !! r = Some pixels ->
  handlers (step cfg args (Handle c None) s) !! c
  = Some {| path := path self; pc := StreamLoop;
            calls := calls self ++ part_calls (imencode_jpg pixels) |}.
Proof.
  intros Hc Hpc Hpix. simpl. rewrite Hc. simpl.
  rewrite list_lookup_insert_eq by (by eapply lookup_lt_Some).
  unfold handler_step. rewrite Hpc, Hpix. unfold stream_write.
  by rewrite writes_no_failure.
Qed.

(** C4: a ['/stream'] connection was answered with status 200 and the content
    type [multipart/x-mixed-replace; boundary=frame]; each frame it sends is
    written as the boundary line, the [Content-Type: image/jpeg] line, a
    blank line, the JPEG bytes and a line break, in this order; and all it
    has sent so far is a sequence of such parts. *)
Theorem stream_part_framing script c self r :
  handlers (run cfg args script init) !! c = Some self ->
  pc self = Encode r ->
  ∃ pixels earlier jpegs,
    heap (run cfg args script init) !! r = Some pixels
    ∧ calls self
      = [send_response 200;
         send_header "Content-type" "multipart/x-mixed-replace; boundary=frame";
         end_headers] ++ earlier
    ∧ body (calls self)
      = foldr (λ jpeg rest, multipart_part jpeg +:+ rest) "" jpegs
    ∧ handlers (step cfg args (Handle c None) (run cfg args script init)) !! c
      = Some {| path := "/stream"; pc := StreamLoop;
                calls := calls self
                         ++ [wfile_write ("--frame" +:+ CRLF);
                             wfile_write ("Content-Type: image/jpeg" +:+ CRLF +:+ CRLF);
                             wfile_write (imencode_jpg pixels);
                             wfile_write CRLF] |}
    ∧ body [wfile_write ("--frame" +:+ CRLF);
            wfile_write ("Content-Type: image/jpeg" +:+ CRLF +:+ CRLF);
            wfile_write (imencode_jpg pixels);
            wfile_write CRLF]
      = "--frame" +:+ CRLF +:+ "Content-Type: image/jpeg" +:+ CRLF +:+ CRLF
        +:+ imencode_jpg pixels +:+ CRLF.
Proof.
  intros Hc Hpc.
  pose proof (Inv_run script init Inv_init) as HI.
  pose proof (inv_handlers cfg _ HI c self Hc) as Hok.
  unfold handler_ok in Hok. rewrite Hpc in Hok. destruct Hok as (Hpath & Hr & Hcs).
  destruct (inv_published cfg _ HI r Hr) as (frame & temp & heatmap & _ & _ & Hpix).
  destruct (streamed_body _ _ Hcs) as (earlier & jpegs & Hcalls & Hbody).
  exists (overlay temp heatmap), earlier, jpegs.
  split_and!; [done | done | done | |].
  - rewrite (handler_step_write _ c self r _ Hc Hpc Hpix). by rewrite Hpath.
  - apply (body_part_calls (imencode_jpg (overlay temp heatmap))).
Qed.

(** Handler [c] stays as it is while the others run. *)
Lemma step_other_handler a s c self :
  runs_handler c a = false ->
  handlers s !! c = Some self ->
  handlers (step cfg args a s) !! c = Some self.
Proof.
  intros Ha Hc. destruct a as [i| |p|c' fail]; simpl.
  - by rewrite main_step_handlers.
  - by rewrite interrupt_handlers.
  - destruct (serving s); [|done]. simpl. by apply lookup_app_l_Some.
  - simpl in Ha. apply Nat.eqb_neq in Ha.
    destruct (handlers s !! c') as [self'|]; [|done]. simpl.
    by rewrite list_lookup_insert_ne.
Qed.

Lemma run_other_handler others s c self :
  forallb (λ a, negb (runs_handler c a)) others = true ->
  handlers s !! c = Some self ->
  handlers (run cfg args others s) !! c = Some self.
Proof.
  revert s. induction others as [|a others IH]; intros s Hall Hc; [done|].
  simpl in Hall. apply andb_prop in Hall as [Ha Hall].
  apply negb_true_iff in Ha. simpl. by apply IH, step_other_handler.
Qed.

Lemma multipart_part_nonempty jpeg : multipart_part jpeg ≠ "".
Proof. discriminate. Qed.

(** C9: one pass of the stream loop writes to the client exactly when the
    read of the frame store gives a frame.  On an empty store the pass leaves
    the connection as it was; on a frame it writes one whole part, whatever
    the other threads do meanwhile; and a connection that streams before the
    first publish has received the response head and no body byte. *)
Theorem stream_pass_writes_iff_frame script c self :
  handlers (run cfg args script init) !! c = Some self ->
  pc self = StreamLoop ->
  (get_frame (server (run cfg args script init)) = None ->
   ∀ fail, handlers (step cfg args (Handle c fail) (run cfg args script init)) !! c
           = Some self)
  ∧ (∀ r, get_frame (server (run cfg args script init)) = Some r ->
       ∃ pixels,
         heap (run cfg args script init) !! r = Some pixels
         ∧ multipart_part (imencode_jpg pixels) ≠ ""
         ∧ ∀ fail others,
             forallb (λ a, negb (runs_handler c a)) others = true ->
             ∃ self',
               handlers (run cfg args (Handle c fail :: others ++ [Handle c None])
                           (run cfg args script init)) !! c = Some self'
               ∧ pc self' = StreamLoop
               ∧ calls self'
                 = calls self
                   ++ [wfile_write ("--frame" +:+ CRLF);
                       wfile_write ("Content-Type: image/jpeg" +:+ CRLF +:+ CRLF);
                       wfile_write (imencode_jpg pixels);
                       wfile_write CRLF]
               ∧ body (calls self')
                 = body (calls self) +:+ multipart_part (imencode_jpg pixels))
  ∧ (nothing_published (run cfg args script init) = true ->
     calls self = stream_head ∧ body (calls self) = "").
Proof.
  intros Hc Hpc.
  pose proof (Inv_run script init Inv_init) as HI.
  set (s := run cfg args script init) in *.
  pose proof (inv_handlers cfg _ HI c self Hc) as Hok.
  unfold handler_ok in Hok. rewrite Hpc in Hok. destruct Hok as [Hpath Hcs].
  assert (Hlt : (c < length (handlers s))%nat) by (by eapply lookup_lt_Some).
  split_and!.
  - intros Hget fail. simpl. rewrite Hc. simpl.
    rewrite list_lookup_insert_eq by done.
    unfold handler_step, stream_read. by rewrite Hpc, Hget.
  - intros r Hget.
    pose proof (inv_store cfg _ HI r Hget) as Hr.
    destruct (inv_published cfg _ HI r Hr) as (frame & temp & heatmap & _ & _ & Hpix).
    exists (overlay temp heatmap).
    split_and!; [done | apply multipart_part_nonempty |].
    intros fail others Hothers.
    set (held := {| path := path self; pc := Encode r; calls := calls self |}).
    assert (Hread : handlers (step cfg args (Handle c fail) s) !! c = Some held).
    { simpl. rewrite Hc. simpl. rewrite list_lookup_insert_eq by done.
      unfold handler_step, stream_read. by rewrite Hpc, Hget. }
    pose proof (Inv_step (Handle c fail) s HI) as HI1.
    pose proof (step_extends (Handle c fail) s HI) as Hext1.
    pose proof (run_extends others _ HI1) as Hext2.
    pose proof (extends_trans _ _ _ Hext1 Hext2) as [_ Hheap].
    pose proof (run_other_handler others _ c held Hothers Hread) as Hheld.
    eexists. split_and!.
    + change (Handle c fail :: others ++ [Handle c None])
        with ([Handle c fail] ++ others ++ [Handle c None]).
      rewrite !run_app. simpl run.
      apply (handler_step_write _ c held r (overlay temp heatmap) Hheld); [done|].
      by rewrite Hheap.
    + done.
    + done.
    + simpl. by rewrite body_app, body_part_calls.
  - intros Hnone.
    assert (Hcalls : calls self = stream_head).
    { destruct Hcs as [|cs r pixels _ Hr _]; [done|].
      by destruct (nothing_published_spec _ r Hnone). }
    by rewrite Hcalls.
Qed.

(** *** Routes *)

(** C8: a GET for a path other than ['/'] and ['/stream'] is answered with
    [send_error(404)] and the handler returns: at no time has that connection
    been written a byte of the stream.  The ['/'] route answers 200 with the
    page, which holds an image tag whose source is ['/stream']. *)
Theorem other_paths_get_404 p :
  p ≠ "/" -> p ≠ "/stream" ->
  (∀ fail, do_GET {| path := p; pc := DoGET; calls := [] |} fail
           = {| path := p; pc := Finished; calls := [send_error 404; end_headers] |})
  ∧ (∀ script c self,
       handlers (run cfg args script init) !! c = Some self -> path self = p ->
       (pc self = DoGET ∧ calls self = []
        ∨ pc self = Finished ∧ calls self = [send_error 404; end_headers])
       ∧ body (calls self) = "")
  ∧ do_GET {| path := "/"; pc := DoGET; calls := [] |} None
    = {| path := "/"; pc := Finished;
         calls := [send_response 200; send_header "Content-type" "text/html";
                   end_headers; wfile_write page] |}
  ∧ ∃ before after,
      page = before +:+ "<img src=" +:+ quote +:+ "/stream" +:+ quote +:+ " />"
             +:+ after.
Proof.
  intros Hroot%String.eqb_neq Hstream%String.eqb_neq. split_and!.
  - intros fail. unfold do_GET. simpl. by rewrite Hroot, Hstream.
  - intros script c self Hc <-.
    pose proof (inv_handlers cfg _ (Inv_run script init Inv_init) c self Hc) as Hok.
    unfold handler_ok, finished_ok in Hok. rewrite Hroot, Hstream in Hok.
    apply String.eqb_neq in Hstream.
    destruct (pc self); [| by destruct Hok | by destruct Hok |]; rewrite Hok; auto.
  - done.
  - exists (LF +:+ spaces 16 +:+ "<html>"
            +:+ LF +:+ spaces 16 +:+ "<head>"
            +:+ LF +:+ spaces 20 +:+ "<title>Thermal Camera Stream</title>"
            +:+ LF +:+ spaces 16 +:+ "</head>"
            +:+ LF +:+ spaces 16 +:+ "<body>"
            +:+ LF +:+ spaces 20 +:+ "<h1>Thermal Camera Stream</h1>"
            +:+ LF +:+ spaces 20),
           (LF +:+ spaces 16 +:+ "</body>"
            +:+ LF +:+ spaces 16 +:+ "</html>"
            +:+ LF +:+ spaces 12).
    vm_compute. reflexivity.
Qed.

(** *** Leaving the capture loop *)

(** Once the main thread is past the loop, all it still does is the
    [finally] block, once. *)
Lemma after_loop_step a s why log0 :
  after_loop args why log0 s ->
  after_loop args why log0 (step cfg args a s)
  ∧ heap (step cfg args a s) = heap s
  ∧ current_frame (server (step cfg args a s)) = current_frame (server s).
Proof.
  intros Hafter.
  destruct (http_action a) eqn:Hhttp.
  { destruct (http_step_frame a s Hhttp) as (Hheap & Hsrv & _ & Hmain & Hlog).
    unfold after_loop. by rewrite Hheap, Hsrv, Hmain, Hlog. }
  unfold after_loop.
  destruct a as [i| |p|c fail]; try discriminate; simpl.
  - unfold main_step.
    destruct Hafter as [[Hmain Hlog]|[[Hmain Hlog]|[Hmain Hlog]]]; rewrite Hmain.
    + simpl. rewrite Hlog. auto.
    + destruct (forallb handler_done (handlers s)); simpl.
      * rewrite Hlog, <- (assoc_L (++)). auto 10.
      * rewrite Hmain, Hlog. auto.
    + rewrite Hmain. auto.
  - unfold interrupt.
    destruct Hafter as [[Hmain Hlog]|[[Hmain Hlog]|[Hmain Hlog]]]; rewrite Hmain;
      simpl; rewrite ?Hmain; auto 10.
Qed.

Lemma after_loop_run script s why log0 :
  after_loop args why log0 s ->
  after_loop args why log0 (run cfg args script s)
  ∧ heap (run cfg args script s) = heap s
  ∧ current_frame (server (run cfg args script s)) = current_frame (server s).
Proof.
  revert s. induction script as [|a script IH]; intros s Hafter; [done|].
  destruct (after_loop_step a s why log0 Hafter) as (Hafter' & Hheap & Hsrv).
  simpl. destruct (IH _ Hafter') as (? & -> & ->). done.
Qed.

(** C6: when [cap.read()] gives no frame the loop is left at once; whatever
    runs afterwards, the main thread reads no further frame and publishes
    nothing: all it does is the [finally] block, which begins, as soon as the
    main thread runs again, by releasing the camera, shutting the server down
    and closing it. *)
Theorem read_failure_ends_capture s i :
  main s = Capture -> camera i = NoFrame ->
  main (main_step cfg args i s) = Finally ReadFailure
  ∧ log (main_step cfg args i s) = log s ++ [cap_isOpened true; cap_read None]
  ∧ (∀ script,
       (∃ tail,
          log (run cfg args script (main_step cfg args i s))
          = (log s ++ [cap_isOpened true; cap_read None]) ++ tail
          ∧ (tail = []
             ∨ tail = [cap_release; server_shutdown; server_server_close]
             ∨ tail = [cap_release; server_shutdown; server_server_close]
                      ++ (if headless args then [] else [cv2_destroyAllWindows])
                      ++ [print "Capture ended"]))
       ∧ get_frame (server (run cfg args script (main_step cfg args i s)))
         = get_frame (server s)
       ∧ heap (run cfg args script (main_step cfg args i s)) = heap s)
  ∧ (∀ others i',
       forallb http_action others = true ->
       main (run cfg args (others ++ [Main i']) (main_step cfg args i s))
       = Joining ReadFailure
       ∧ log (run cfg args (others ++ [Main i']) (main_step cfg args i s))
         = (log s ++ [cap_isOpened true; cap_read None])
           ++ [cap_release; server_shutdown; server_server_close]
       ∧ serving (run cfg args (others ++ [Main i']) (main_step cfg args i s))
         = false).
Proof.
  intros Hmain Hcam.
  assert (Hstep : main_step cfg args i s
                  = goto (Finally ReadFailure)
                      (emit [cap_isOpened true; cap_read None] s)).
  { unfold main_step. by rewrite Hmain, Hcam. }
  rewrite Hstep. split_and!; [done | done | |].
  - intros script.
    destruct (after_loop_run script
                (goto (Finally ReadFailure) (emit [cap_isOpened true; cap_read None] s))
                ReadFailure (log s ++ [cap_isOpened true; cap_read None]))
      as (Hafter & Hheap & Hsrv); [by left|].
    split_and!; [|done..].
    destruct Hafter as [[_ Hlog]|[[_ Hlog]|[_ [Hlog|[Hlog|Hlog]]]]]; rewrite Hlog.
    + exists []. by rewrite (right_id_L [] (++)); auto.
    + eexists. split; [done|]. auto.
    + exists []. by rewrite (right_id_L [] (++)); auto.
    + eexists. split; [done|]. auto.
    + eexists. split; [done|]. auto.
  - intros others i' Hothers. rewrite run_app.
    destruct (http_run_frame others
                (goto (Finally ReadFailure) (emit [cap_isOpened true; cap_read None] s))
                Hothers) as (_ & _ & _ & Hpc & Hlog).
    simpl run. unfold main_step. rewrite Hpc. simpl. by rewrite Hlog.
Qed.

(** *** Headless mode *)

Lemma process_decodes frame temp heatmap :
  process cfg frame = Some (temp, heatmap) -> frame_temp frame = Some temp.
Proof.
  unfold process, frame_temp.
  destruct (split_frame frame) as [[imdata thdata]|]; simpl; [|done].
  destruct (decode_temp thdata) as [temp'|]; simpl; [|done].
  destruct (visible cfg imdata) as [bgr|]; simpl; [|done].
  destruct (applyColorMap bgr COLORMAP_JET); simpl; [|done].
  by intros [= -> _].
Qed.

Lemma process_undecoded frame :
  frame_temp frame = None -> process cfg frame = None.
Proof.
  unfold process, frame_temp.
  destruct (split_frame frame) as [[imdata thdata]|]; simpl; [|done].
  by destruct (decode_temp thdata).
Qed.

Lemma forallb_app_true {A} (f : A -> bool) l l' :
  forallb f l = true -> forallb f l' = true -> forallb f (l ++ l') = true.
Proof. intros Hl Hl'. rewrite forallb_app, Hl, Hl'. done. Qed.

Lemma raised_extends s s' : extends s s' -> raised cfg s -> raised cfg s'.
Proof.
  intros [Hlog _] (frame & Hin & Hproc). exists frame. split; [by apply Hlog|done].
Qed.

Lemma headless_step a s :
  headless args = true -> Inv cfg s ->
  headless_ok cfg s -> headless_ok cfg (step cfg args a s).
Proof.
  intros Hheadless HI [Hlog Hwhy].
  assert (Hold : ∀ why, left_loop s why ->
                        why ≠ QuitKey
                        ∧ (why = Exception -> raised cfg (step cfg args a s))).
  { intros why Hleft. destruct (Hwhy why Hleft) as [Hq He]. split; [done|].
    intros Hx. eapply raised_extends; [by apply step_extends|by apply He]. }
  clear Hwhy. revert Hold. unfold headless_ok, left_loop.
  destruct (http_action a) eqn:Hhttp.
  { destruct (http_step_frame a s Hhttp) as (_ & _ & _ & Hmain & Hlog').
    intros Hold. by rewrite Hmain, Hlog'. }
  destruct a as [i| |p|c fail]; try discriminate; simpl.
  - unfold main_step.
    destruct (main s) as [|r temp|r|r|why|why|why] eqn:Hmain.
    + intros _. destruct i as [[| |frame] k]; simpl.
      * split; simpl; [by apply forallb_app_true|].
        intros why [[= <-]|[[=]|[=]]]. by split.
      * split; simpl; [by apply forallb_app_true|].
        intros why [[= <-]|[[=]|[=]]]. by split.
      * destruct (process cfg frame) as [[temp heatmap]|] eqn:Hproc; simpl.
        -- split; simpl; [by apply forallb_app_true|]. by intros why [[=]|[[=]|[=]]].
        -- split; simpl; [by apply forallb_app_true|].
           intros why [[= <-]|[[=]|[=]]]. split; [done|]. intros _.
           exists frame. split; [simpl; set_solver|done].
    + intros _. split; simpl; [done|]. by intros why [[=]|[[=]|[=]]].
    + intros _. split; simpl; [by apply forallb_app_true|].
      by intros why [[=]|[[=]|[=]]].
    + intros _. rewrite Hheadless. split; simpl; [done|].
      by intros why [[=]|[[=]|[=]]].
    + intros Hold. split; simpl; [by apply forallb_app_true|].
      intros why' [[=]|[[= <-]|[=]]]. apply Hold. by left.
    + destruct (forallb handler_done (handlers s)); simpl.
      * intros Hold. split; simpl.
        -- apply forallb_app_true; [done|]. unfold farewell. by rewrite Hheadless.
        -- intros why' [[=]|[[=]|[= <-]]]. apply Hold. right. by left.
      * intros Hold. split; [done|]. rewrite Hmain. apply Hold.
    + intros Hold. split; [done|]. rewrite Hmain. apply Hold.
  - unfold interrupt.
    destruct (main s) as [|r temp|r|r|why|why|why] eqn:Hmain; simpl;
      try (intros _; split; simpl; [by apply forallb_app_true|];
           intros why' [[= <-]|[[=]|[=]]]; by split).
    + intros Hold. split; simpl; [done|].
      intros why' [[=]|[[=]|[= <-]]]. apply Hold. by left.
    + intros Hold. split; simpl; [done|].
      intros why' [[=]|[[=]|[= <-]]]. apply Hold. right. by left.
    + intros Hold. split; [done|]. rewrite Hmain. apply Hold.
Qed.

Lemma headless_init : headless_ok cfg (init (Mat := Mat)).
Proof. split; [done|]. by intros why [[=]|[[=]|[=]]]. Qed.

Lemma headless_run script s :
  headless args = true -> Inv cfg s ->
  headless_ok cfg s -> headless_ok cfg (run cfg args script s).
Proof.
  intros Hheadless. revert s.
  induction script as [|a script IH]; intros s HI Hok; [done|].
  simpl. apply IH; [by apply Inv_step|by apply headless_step].
Qed.

(** C10: with [--headless] the main thread never shows a window and never
    polls the keyboard, so the loop is never left through the quit key.  It
    ends because the camera is closed or gives no frame, by an interrupt, or
    by an exception raised on a frame the camera gave: the decode did not
    find its reading, or an image operation refused the picture.  When every
    frame read can be processed, the camera and the interrupt are the only
    ways out. *)
Theorem headless_never_polls_keyboard script :
  headless args = true ->
  forallb (λ e, negb (is_display e)) (log (run cfg args script init)) = true
  ∧ ∀ why,
      left_loop (run cfg args script init) why ->
      why ≠ QuitKey
      ∧ (why = CameraClosed ∨ why = ReadFailure ∨ why = Interrupt
         ∨ why = Exception
           ∧ ∃ frame,
               cap_read (Some frame) ∈ log (run cfg args script init)
               ∧ process cfg frame = None)
      ∧ ((∀ frame,
            cap_read (Some frame) ∈ log (run cfg args script init) ->
            is_Some (process cfg frame)) ->
         why = CameraClosed ∨ why = ReadFailure ∨ why = Interrupt).
Proof.
  intros Hheadless.
  destruct (headless_run script init Hheadless Inv_init headless_init)
    as [Hlog Hexit].
  split; [done|]. intros why Hwhy.
  destruct (Hexit why Hwhy) as [Hquit Hraised]. split_and!; [done| |].
  - destruct why; auto; [done|].
    do 3 right. split; [done|]. by apply Hraised.
  - intros Hall. destruct why; auto; [done|].
    destruct (Hraised eq_refl) as (frame & Hin & Hproc).
    destruct (Hall frame Hin) as [? Hsome]. congruence.
Qed.

(** *** The frame pipeline *)

(** C7: a captured frame of an even number of rows is split into its top and
    bottom halves; the top half goes through [cvtColor] (YUYV to BGR),
    [convertScaleAbs], [resize] to [width*scale] by [height*scale] with cubic
    interpolation, [blur] only if [rad] is positive, the jet colour map and
    the text overlay at (10, 30), each operation taking what the one before
    returned; the resulting array is the one the frame store holds after
    [set_frame], whatever the handler threads do meanwhile.  The frame is one
    the pass does not raise on: the decode finds its reading and each image
    operation returns.  With the script's settings the factor is 3 (768 by
    576) and no blur is applied. *)
Theorem published_frame_is_pipeline s frame n temp k i2 i3 hs1 hs2 hs3
    converted scaled resized bgr heatmap :
  main s = Capture ->
  length frame = (2 * n)%nat ->
  decode_temp (drop n frame) = Some temp ->
  cvtColor (take n frame) COLOR_YUV2BGR_YUYV = Some converted ->
  convertScaleAbs converted (alpha cfg) = Some scaled ->
  resize scaled (width cfg * scale cfg, height cfg * scale cfg) INTER_CUBIC
  = Some resized ->
  (if 0 <? rad cfg then blur resized (rad cfg, rad cfg) else Some resized)
  = Some bgr ->
  applyColorMap bgr COLORMAP_JET = Some heatmap ->
  forallb http_action (hs1 ++ hs2 ++ hs3) = true ->
  let picture :=
    putText heatmap
      (format_1f temp +:+ "C") (10, 30) FONT_HERSHEY_SIMPLEX 1 (255, 255, 255) 2 in
  let s' :=
    run cfg args
      (Main {| camera := Frame frame; key := k |} :: hs1
       ++ Main i2 :: hs2 ++ Main i3 :: hs3) s in
  get_frame (server s') = Some (length (heap s))
  ∧ heap s' !! length (heap s) = Some picture
  ∧ log s' = log s ++ [cap_isOpened true; cap_read (Some frame);
                       server_set_frame (length (heap s))]
  ∧ (scale settings = 3 ∧ width settings * scale settings = 768
     ∧ height settings * scale settings = 576 ∧ (0 <? rad settings) = false).
Proof.
  intros Hmain Hlen Htemp Hcvt Hscale Hresize Hblur Hmap Hhttp picture.
  rewrite !forallb_app in Hhttp.
  apply andb_prop in Hhttp as [Hhs1 Hhttp]. apply andb_prop in Hhttp as [Hhs2 Hhs3].
  assert (Hproc : process cfg frame = Some (temp, heatmap)).
  { unfold process. rewrite (split_frame_even frame n Hlen). simpl.
    rewrite Htemp. simpl. unfold visible, newWidth, newHeight.
    rewrite Hcvt. simpl. rewrite Hscale. simpl. rewrite Hresize. simpl.
    rewrite Hblur. simpl. by rewrite Hmap. }
  (* capture *)
  set (s1 := step cfg args (Main {| camera := Frame frame; key := k |}) s).
  assert (H1 : main s1 = Overlay (length (heap s)) temp
               ∧ heap s1 = heap s ++ [heatmap]
               ∧ log s1 = log s ++ [cap_isOpened true; cap_read (Some frame)]
               ∧ server s1 = server s).
  { subst s1. simpl. unfold main_step. rewrite Hmain. simpl. by rewrite Hproc. }
  destruct H1 as (Hpc1 & Hheap1 & Hlog1 & Hsrv1).
  destruct (http_run_frame hs1 s1 Hhs1) as (Hheap1' & Hsrv1' & _ & Hpc1' & Hlog1').
  rewrite Hheap1 in Hheap1'. rewrite Hpc1 in Hpc1'. rewrite Hlog1 in Hlog1'.
  (* overlay *)
  set (s2 := step cfg args (Main i2) (run cfg args hs1 s1)).
  assert (H2 : main s2 = Update (length (heap s))
               ∧ heap s2 = heap s ++ [picture]
               ∧ log s2 = log s ++ [cap_isOpened true; cap_read (Some frame)]
               ∧ server s2 = server s).
  { subst s2. simpl. unfold main_step. rewrite Hpc1'. simpl.
    rewrite Hheap1', Hlog1', Hsrv1', Hsrv1. split_and!; try done.
    apply list_eq. intros j.
    destruct (decide (j = length (heap s))) as [->|Hne].
    - by rewrite list_lookup_alter_eq, !list_lookup_middle.
    - rewrite list_lookup_alter_ne by done.
      destruct (decide (j < length (heap s))%nat).
      + by rewrite !lookup_app_l.
      + rewrite !lookup_ge_None_2; [done|rewrite length_app; simpl; lia..]. }
  destruct H2 as (Hpc2 & Hheap2 & Hlog2 & Hsrv2).
  destruct (http_run_frame hs2 s2 Hhs2) as (Hheap2' & Hsrv2' & _ & Hpc2' & Hlog2').
  rewrite Hheap2 in Hheap2'. rewrite Hpc2 in Hpc2'. rewrite Hlog2 in Hlog2'.
  (* set_frame *)
  set (s3 := step cfg args (Main i3) (run cfg args hs2 s2)).
  assert (H3 : heap s3 = heap s ++ [picture]
               ∧ log s3 = log s ++ [cap_isOpened true; cap_read (Some frame);
                                    server_set_frame (length (heap s))]
               ∧ get_frame (server s3) = Some (length (heap s))).
  { subst s3. simpl. unfold main_step. rewrite Hpc2'. simpl.
    rewrite Hheap2', Hlog2'. split_and!; try done.
    by rewrite <- (assoc_L (++)). }
  destruct H3 as (Hheap3 & Hlog3 & Hget3).
  destruct (http_run_frame hs3 s3 Hhs3) as (Hheap3' & Hsrv3' & _ & _ & Hlog3').
  intros s'.
  assert (Hs' : s' = run cfg args hs3 s3).
  { subst s' s3 s2 s1.
    change (Main {| camera := Frame frame; key := k |} :: hs1
            ++ Main i2 :: hs2 ++ Main i3 :: hs3)
      with ([Main {| camera := Frame frame; key := k |}] ++ hs1
            ++ [Main i2] ++ hs2 ++ [Main i3] ++ hs3).
    by rewrite !run_app. }
  rewrite Hs', Hheap3', Hsrv3', Hlog3', Hheap3, Hlog3.
  split_and!; try done. by rewrite list_lookup_middle.
Qed.

End program_facts.

(** ** The theorems on concrete runs *)

Section witnesses.
Import Thermal Cv2 Pipeline Http Program Symbolic Examples MoreExamples.

Lemma get_frame_before_first_publish_witness :
  get_frame (server (run settings headless_args early_client init)) = None
  ∧ get_frame Server_init = None.
Proof.
  apply (get_frame_before_first_publish settings headless_args early_client).
  vm_compute. reflexivity.
Defined.

Lemma reads_are_never_torn_witness :
  ∃ frame temp heatmap,
    cap_read (Some frame) ∈ log (run settings headless_args first_publish init)
    ∧ process settings frame = Some (temp, heatmap)
    ∧ published (run settings headless_args first_publish init) 0
    ∧ heap (run settings headless_args first_publish init) !! 0%nat
      = Some (overlay temp heatmap)
    ∧ heap (run settings headless_args next_capture
              (run settings headless_args first_publish init)) !! 0%nat
      = Some (overlay temp heatmap)
    ∧ ∀ temp', main (run settings headless_args next_capture
                       (run settings headless_args first_publish init))
               ≠ Overlay 0 temp'.
Proof.
  apply (reads_are_never_torn settings headless_args first_publish next_capture 0).
  vm_compute. reflexivity.
Defined.

Lemma stream_part_framing_witness :
  ∃ pixels,
    heap (run settings headless_args first_publish init) !! 0%nat = Some pixels
    ∧ handlers (step settings headless_args (Handle 0 None)
                  (run settings headless_args first_publish init)) !! 0%nat
      = Some {| path := "/stream"; pc := StreamLoop;
                calls := stream_head
                         ++ [wfile_write ("--frame" +:+ CRLF);
                             wfile_write ("Content-Type: image/jpeg" +:+ CRLF +:+ CRLF);
                             wfile_write (imencode_jpg pixels);
                             wfile_write CRLF] |}.
Proof.
  destruct (stream_part_framing settings headless_args first_publish 0
              {| path := "/stream"; pc := Encode 0; calls := stream_head |} 0)
    as (pixels & _ & _ & Hpix & _ & _ & Hstep & _).
  - vm_compute. reflexivity.
  - reflexivity.
  - exists pixels. split; [exact Hpix | exact Hstep].
Defined.

Lemma stream_pass_writes_iff_frame_witness :
  (get_frame (server (run settings headless_args early_client init)) = None
   ∧ (∀ fail,
        handlers (step settings headless_args (Handle 0 fail)
                    (run settings headless_args early_client init)) !! 0%nat
        = Some {| path := "/stream"; pc := StreamLoop; calls := stream_head |})
   ∧ body stream_head = "")
  ∧ (get_frame (server (run settings headless_args
                          (early_client ++ [Main frame_a]) init)) = Some 0%nat
     ∧ ∃ pixels self',
         heap (run settings headless_args (early_client ++ [Main frame_a]) init)
           !! 0%nat = Some pixels
         ∧ handlers
             (run settings headless_args
                (Handle 0 None :: [Main frame_a; Request "/"] ++ [Handle 0 None])
                (run settings headless_args (early_client ++ [Main frame_a]) init))
             !! 0%nat = Some self'
         ∧ body (calls self') = multipart_part (imencode_jpg pixels)).
Proof.
  split.
  - destruct (stream_pass_writes_iff_frame settings headless_args early_client 0
                {| path := "/stream"; pc := StreamLoop; calls := stream_head |})
      as (Hnone & _ & Hearly).
    + vm_compute. reflexivity.
    + reflexivity.
    + assert (Hget : get_frame (server (run settings headless_args early_client init))
                     = None) by (vm_compute; reflexivity).
      split; [exact Hget|]. split; [exact (Hnone Hget)|].
      apply Hearly. vm_compute. reflexivity.
  - destruct (stream_pass_writes_iff_frame settings headless_args
                (early_client ++ [Main frame_a]) 0
                {| path := "/stream"; pc := StreamLoop; calls := stream_head |})
      as (_ & Hsome & _).
    + vm_compute. reflexivity.
    + reflexivity.
    + assert (Hget : get_frame (server (run settings headless_args
                                          (early_client ++ [Main frame_a]) init))
                     = Some 0%nat) by (vm_compute; reflexivity).
      split; [exact Hget|].
      destruct (Hsome 0%nat Hget) as (pixels & Hpix & _ & Hpass).
      destruct (Hpass None [Main frame_a; Request "/"] eq_refl)
        as (self' & Hself' & _ & _ & Hbody).
      exists pixels, self'. split; [exact Hpix|]. split; [exact Hself'|].
      exact Hbody.
Defined.

Lemma other_paths_get_404_witness :
  do_GET {| path := "/favicon.ico"; pc := DoGET; calls := [] |} None
  = {| path := "/favicon.ico"; pc := Finished;
       calls := [send_error 404; end_headers] |}.
Proof.
  destruct (other_paths_get_404 (Mat := Picture) settings default_args "/favicon.ico")
    as (H404 & _); [discriminate | discriminate |].
  apply H404.
Defined.

Lemma read_failure_ends_capture_witness :
  main (main_step (Mat := Picture) settings default_args no_frame init)
  = Finally ReadFailure
  ∧ main (run settings default_args [Request "/"; Main no_frame]
            (main_step (Mat := Picture) settings default_args no_frame init))
    = Joining ReadFailure
  ∧ log (run settings default_args [Request "/"; Main no_frame]
           (main_step (Mat := Picture) settings default_args no_frame init))
    = [cap_isOpened true; cap_read None; cap_release; server_shutdown;
       server_server_close]
  ∧ serving (run settings default_args [Request "/"; Main no_frame]
               (main_step (Mat := Picture) settings default_args no_frame init))
    = false.
Proof.
  destruct (read_failure_ends_capture (Mat := Picture) settings default_args
              init no_frame eq_refl eq_refl) as (Hleft & _ & _ & Hfinally).
  split; [exact Hleft|].
  exact (Hfinally [Request "/"] no_frame eq_refl).
Defined.

Lemma headless_never_polls_keyboard_witness :
  main (run settings headless_args
          (first_publish ++ next_capture ++ [Main odd_input]) init)
  = Finally Exception
  ∧ forallb (λ e, negb (is_display e))
      (log (run settings headless_args
              (first_publish ++ next_capture ++ [Main odd_input]) init)) = true
  ∧ Exception ≠ QuitKey
  ∧ (Exception = CameraClosed ∨ Exception = ReadFailure ∨ Exception = Interrupt
     ∨ Exception = Exception
       ∧ ∃ frame,
           cap_read (Some frame)
           ∈ log (run settings headless_args
                    (first_publish ++ next_capture ++ [Main odd_input]) init)
           ∧ process settings frame = None).
Proof.
  assert (Hmain : main (run settings headless_args
                          (first_publish ++ next_capture ++ [Main odd_input]) init)
                  = Finally Exception) by (vm_compute; reflexivity).
  destruct (headless_never_polls_keyboard (Mat := Picture) settings headless_args
              (first_publish ++ next_capture ++ [Main odd_input]) eq_refl)
    as [Hlog Hexit].
  destruct (Hexit Exception (or_introl Hmain)) as (Hquit & Hwhy & _).
  split; [exact Hmain|]. split; [exact Hlog|]. split; [exact Hquit|]. exact Hwhy.
Defined.

(** A headless run in which the camera is open and gives a frame, nobody
    interrupts, and the loop is left all the same: the frame has 193 rows,
    and the decode raises [IndexError]. *)
Lemma headless_loop_left_by_exception :
  headless headless_args = true
  ∧ main (run (Mat := Picture) settings headless_args [Main short_input] init)
    = Finally Exception
  ∧ log (run (Mat := Picture) settings headless_args [Main short_input] init)
    = [cap_isOpened true; cap_read (Some short_frame)]
  ∧ Exception ≠ CameraClosed ∧ Exception ≠ ReadFailure ∧ Exception ≠ Interrupt.
Proof.
  split; [reflexivity|]. split; [vm_compute; reflexivity|].
  split; [vm_compute; reflexivity|]. by split_and!.
Qed.

Lemma published_frame_is_pipeline_witness :
  get_frame
    (server (run settings default_args
               (Main frame_a :: [Request "/stream"; Handle 0 None]
                ++ Main frame_a :: [Handle 0 None] ++ Main frame_a :: [])
               init)) = Some 0%nat
  ∧ heap (run settings default_args
            (Main frame_a :: [Request "/stream"; Handle 0 None]
             ++ Main frame_a :: [Handle 0 None] ++ Main frame_a :: [])
            init) !! 0%nat
    = Some (PutText
              (ApplyColorMap
                 (Resize
                    (ConvertScaleAbs
                       (CvtColor (take 192 (uniform_frame 7 46)) COLOR_YUV2BGR_YUYV)
                       1.0%float)
                    (768, 576) INTER_CUBIC)
                 COLORMAP_JET)
              "-C" (10, 30) FONT_HERSHEY_SIMPLEX 1 (255, 255, 255) 2).
Proof.
  destruct (published_frame_is_pipeline (Mat := Picture) settings default_args
              init (uniform_frame 7 46) 192 (temp_of_bytes 7 46) (-1)
              frame_a frame_a [Request "/stream"; Handle 0 None] [Handle 0 None] []
              (CvtColor (take 192 (uniform_frame 7 46)) COLOR_YUV2BGR_YUYV)
              (ConvertScaleAbs
                 (CvtColor (take 192 (uniform_frame 7 46)) COLOR_YUV2BGR_YUYV)
                 1.0%float)
              (Resize
                 (ConvertScaleAbs
                    (CvtColor (take 192 (uniform_frame 7 46)) COLOR_YUV2BGR_YUYV)
                    1.0%float)
                 (768, 576) INTER_CUBIC)
              (Resize
                 (ConvertScaleAbs
                    (CvtColor (take 192 (uniform_frame 7 46)) COLOR_YUV2BGR_YUYV)
                    1.0%float)
                 (768, 576) INTER_CUBIC)
              (ApplyColorMap
                 (Resize
                    (ConvertScaleAbs
                       (CvtColor (take 192 (uniform_frame 7 46)) COLOR_YUV2BGR_YUYV)
                       1.0%float)
                    (768, 576) INTER_CUBIC)
                 COLORMAP_JET))
    as (Hget & Hpix & _).
  - reflexivity.
  - vm_compute. reflexivity.
  - vm_compute. reflexivity.
  - vm_compute. reflexivity.
  - reflexivity.
  - reflexivity.
  - reflexivity.
  - reflexivity.
  - reflexivity.
  - split; [exact Hget | exact Hpix].
Defined.

End witnesses.

(** * Further properties of the code *)

(** ** The split and the decode *)

Section layout_facts.
Import Numpy Thermal Layout.

(** [np.array_split(frame, 2)] cuts the frame after [visual_rows] rows. *)
Lemma split_frame_at (frame : RawFrame) :
  split_frame frame
  = Some (take (visual_rows frame) frame, drop (visual_rows frame) frame).
Proof.
  unfold split_frame, array_split, section_sizes, visual_rows.
  pose proof (Nat.div_mod_eq (length frame) 2) as Hn.
  pose proof (Nat.mod_upper_bound (length frame) 2) as Hm.
  revert Hn Hm.
  generalize (Nat.div (length frame) 2) (Nat.modulo (length frame) 2).
  intros q m Hn Hm.
  destruct m as [|[|m]]; [| |lia]; simpl.
  - rewrite Nat.add_0_r.
    rewrite (take_ge (drop q frame)) by (rewrite length_drop; lia).
    reflexivity.
  - replace (q + 1)%nat with (S q) by lia.
    rewrite (take_ge (drop (S q) frame)) by (rewrite length_drop; lia).
    reflexivity.
Qed.

(** X1: the split loses no row and keeps their order; the visual half gets
    the odd row; and the reading the decode takes from the thermal half is
    the pixel at column 128 of the frame's row [visual_rows frame + 96]
    (row 288 of the camera's 384). *)
Theorem thermal_reading_location (frame : RawFrame) :
  ∃ imdata thdata,
    split_frame frame = Some (imdata, thdata)
    ∧ imdata ++ thdata = frame
    ∧ length imdata = (Nat.div (length frame) 2 + Nat.modulo (length frame) 2)%nat
    ∧ length thdata = Nat.div (length frame) 2
    ∧ thermal_bytes frame
      = (row ← frame !! (length imdata + 96)%nat;
         pixel ← row !! 128%nat;
         first ← pixel !! 0%nat;
         second ← pixel !! 1%nat;
         Some (first, second)).
Proof.
  exists (take (visual_rows frame) frame), (drop (visual_rows frame) frame).
  assert (Hn : length frame
               = (2 * Nat.div (length frame) 2 + Nat.modulo (length frame) 2)%nat)
    by apply Nat.div_mod_eq.
  assert (Hk : (visual_rows frame <= length frame)%nat) by (unfold visual_rows; lia).
  assert (Hlen : length (take (visual_rows frame) frame) = visual_rows frame)
    by (rewrite length_take; lia).
  split_and!.
  - apply split_frame_at.
  - apply take_drop.
  - exact Hlen.
  - rewrite length_drop. unfold visual_rows. lia.
  - unfold thermal_bytes. rewrite split_frame_at. simpl.
    unfold thdata_96_128. rewrite lookup_drop, Hlen.
    destruct (frame !! (visual_rows frame + 96)%nat) as [row|]; simpl; [|done].
    destruct (row !! 128%nat) as [pixel|]; simpl; [|done].
    by destruct (pixel !! 0%nat).
Qed.

(** A frame of fewer than 194 rows has no row 96 in its thermal half. *)
Lemma frame_temp_short (frame : RawFrame) :
  (length frame < 194)%nat -> frame_temp frame = None.
Proof.
  intros Hshort. unfold frame_temp. rewrite split_frame_at. simpl.
  unfold decode_temp, thdata_96_128.
  rewrite lookup_ge_None_2; [done|].
  rewrite length_drop. unfold visual_rows.
  pose proof (Nat.div_mod_eq (length frame) 2) as Hn. revert Hn.
  generalize (Nat.div (length frame) 2) (Nat.modulo (length frame) 2).
  intros q m Hn. lia.
Qed.

Lemma frame_temp_tall (frame : RawFrame) :
  (194 <= length frame)%nat -> wide_enough frame -> is_Some (frame_temp frame).
Proof.
  intros Htall Hwide. unfold frame_temp. rewrite split_frame_at. simpl.
  assert (Hrow : (visual_rows frame + 96 < length frame)%nat).
  { unfold visual_rows.
    pose proof (Nat.div_mod_eq (length frame) 2) as Hn.
    pose proof (Nat.mod_upper_bound (length frame) 2) as Hm.
    revert Hn Hm.
    generalize (Nat.div (length frame) 2) (Nat.modulo (length frame) 2).
    intros q m Hn Hm. specialize (Hm ltac:(done)). lia. }
  apply lookup_lt_is_Some_2 in Hrow as [row Hrow].
  pose proof (Forall_lookup_1 _ _ _ _ Hwide Hrow) as [Hcols Hpx].
  assert (Hcol : (128 < length row)%nat) by lia.
  apply lookup_lt_is_Some_2 in Hcol as [pixel Hpixel].
  pose proof (Forall_lookup_1 _ _ _ _ Hpx Hpixel) as Hbytes. simpl in Hbytes.
  destruct (lookup_lt_is_Some_2 pixel 0) as [b0 Hb0]; [lia|].
  destruct (lookup_lt_is_Some_2 pixel 1) as [b1 Hb1]; [lia|].
  unfold decode_temp, thdata_96_128.
  rewrite !lookup_drop, Hrow. simpl. rewrite Hpixel. simpl.
  rewrite Hb0. simpl. rewrite Hb1. simpl. by eexists.
Qed.

(** X2: whatever the two bytes of the reading, the decoded temperature lies
    between -273.15 and 750.84 degrees: never below absolute zero. *)
Theorem temperature_range frame first second :
  thermal_bytes frame = Some (first, second) ->
  uint8 first -> uint8 second ->
  ∃ temp,
    frame_temp frame = Some temp
    ∧ PrimFloat.leb (-273.15) temp = true
    ∧ PrimFloat.ltb temp 750.84 = true.
Proof.
  intros (imdata & thdata & Hsplit & H0 & H1)%thermal_bytes_inv Hb0 Hb1.
  exists (temp_of_bytes first second). split.
  - unfold frame_temp. rewrite Hsplit. simpl. by apply decode_temp_bytes.
  - apply andb_prop.
    apply (all_from_spec (Z.to_nat 65536) 0
             (λ raw, PrimFloat.leb (-273.15) (temp_of_raw raw)
                     && PrimFloat.ltb (temp_of_raw raw) 750.84)).
    + vm_compute. reflexivity.
    + by apply rawtemp_no_wrap.
Qed.

End layout_facts.

(** ** The log, the frame store and the arrays *)

Section trace_facts.
Import Thermal Cv2 Pipeline Http Program Trace.
Context {Mat : Type} `{!External Mat}.
Variable cfg : Settings.
Variable args : Args.

Implicit Types (s : @System Mat) (r : nat) (self : Handler).

Lemma set_frames_app l l' : set_frames (l ++ l') = set_frames l ++ set_frames l'.
Proof. apply omap_app. Qed.

Lemma shown_app l l' : shown (l ++ l') = shown l ++ shown l'.
Proof. apply omap_app. Qed.

Lemma reads_app l l' : reads (l ++ l') = reads l ++ reads l'.
Proof. apply omap_app. Qed.

Lemma Trace_inv_init : Trace_inv args (init (Mat := Mat)).
Proof.
  split; simpl; try done.
  - constructor.
  - intros r Hr. by apply elem_of_nil in Hr.
  - by destruct (headless args).
Qed.

(** The invariant reads the heap, the server, the main thread and the log
    only. *)
Lemma Trace_inv_frame s s' :
  heap s' = heap s -> server s' = server s -> main s' = main s ->
  log s' = log s -> Trace_inv args s -> Trace_inv args s'.
Proof.
  intros Hheap Hsrv Hmain Hlog [Hst Hnd Hal Hpe Hco Hsh].
  split; rewrite ?Hheap, ?Hsrv, ?Hmain, ?Hlog; done.
Qed.

(** Closes the clauses of [Trace_inv] after a step that publishes nothing. *)
Ltac trace_quiet Hal :=
  split; simpl; trace_norm; auto;
  try solve
    [ rewrite ?length_app, ?length_alter; simpl; lia
    | right; rewrite ?length_app; simpl; lia
    | intros r0 Hr0; rewrite ?length_app, ?length_alter;
      specialize (Hal _ Hr0); simpl; lia
    | rewrite ?length_app, ?length_alter; simpl;
      split; [lia | intros Hr0; specialize (Hal _ Hr0); lia]
    | destruct (headless args); auto ].

Lemma Trace_inv_main_step i s :
  Trace_inv args s -> Trace_inv args (main_step cfg args i s).
Proof.
  intros [Hst Hnd Hal Hpe Hco Hsh]. unfold main_step.
  destruct (main s) as [|r temp|r|r|why|why|why] eqn:Hmain.
  - destruct (camera i) as [| |frame]; [trace_quiet Hal..|].
    destruct (process cfg frame) as [[temp heatmap]|]; trace_quiet Hal.
  - destruct Hpe as [Hlt Hfresh]. trace_quiet Hal.
    by rewrite length_alter.
  - destruct Hpe as [Hlt Hfresh].
    split; simpl; trace_norm; auto.
    + by rewrite last_snoc.
    + apply NoDup_app. split_and!; [done| |apply NoDup_singleton].
      intros r' Hr' ->%list_elem_of_singleton. done.
    + intros r' [Hr'| ->%list_elem_of_singleton]%elem_of_app; auto.
    + rewrite length_app. simpl. lia.
    + destruct (headless args); [done|]. by rewrite Hsh.
  - destruct (headless args) eqn:Hheadless.
    + split; simpl; rewrite ?Hheadless; auto.
    + destruct (quit_pressed (key i));
        (split; simpl; rewrite ?Hheadless; trace_norm; auto).
  - trace_quiet Hal.
  - destruct (forallb handler_done (handlers s)).
    + split; simpl; unfold farewell; destruct (headless args); trace_norm; auto.
    + split; rewrite ?Hmain; auto.
  - split; rewrite ?Hmain; auto.
Qed.

Lemma Trace_inv_interrupt s : Trace_inv args s -> Trace_inv args (interrupt s).
Proof.
  intros [Hst Hnd Hal Hpe Hco Hsh]. unfold interrupt.
  destruct (main s) as [|r temp|r|r|why|why|why] eqn:Hmain;
    try (split; simpl; rewrite ?Hmain; trace_norm; by auto).
  all: split; simpl; trace_norm; auto; destruct (headless args); eauto.
Qed.

Lemma Trace_inv_step a s : Trace_inv args s -> Trace_inv args (step cfg args a s).
Proof.
  intros HT.
  destruct (http_action a) eqn:Hhttp.
  { destruct (http_step_frame cfg args a s Hhttp) as (? & ? & _ & ? & ?).
    by apply Trace_inv_frame with s. }
  destruct a as [i| |p|c fail]; try discriminate; simpl.
  - by apply Trace_inv_main_step.
  - by apply Trace_inv_interrupt.
Qed.

Lemma Trace_inv_run script s :
  Trace_inv args s -> Trace_inv args (run cfg args script s).
Proof.
  revert s. induction script as [|a script IH]; intros s HT; [done|].
  simpl. by apply IH, Trace_inv_step.
Qed.

(** X3: the frame store holds the latest value: in every state of every run,
    [get_frame] gives the array of the most recent [set_frame] call, and
    [None] when there was none. *)
Theorem store_holds_latest_publish script :
  get_frame (server (run cfg args script init))
  = last (set_frames (log (run cfg args script init))).
Proof. apply (tr_store args _ (Trace_inv_run script init Trace_inv_init)). Qed.

(** X4: no array is handed to [set_frame] twice, and each one exists: every
    publish is of an array made in that pass of the loop. *)
Theorem published_arrays_are_distinct script :
  NoDup (set_frames (log (run cfg args script init)))
  ∧ ∀ r, r ∈ set_frames (log (run cfg args script init)) ->
         is_Some (heap (run cfg args script init) !! r).
Proof.
  pose proof (Trace_inv_run script init Trace_inv_init) as HT. split.
  - apply (tr_distinct args _ HT).
  - intros r Hr. apply lookup_lt_is_Some_2, (tr_alive args _ HT r Hr).
Qed.

(** X5: one publish goes with one frame read: at any time the number of
    [set_frame] calls is the number of frames [cap.read] gave, or one less
    (the frame in the making, or the last frame of a loop that was left). *)
Theorem one_publish_per_frame_read script :
  length (reads (log (run cfg args script init)))
  = length (set_frames (log (run cfg args script init)))
  ∨ length (reads (log (run cfg args script init)))
    = S (length (set_frames (log (run cfg args script init)))).
Proof.
  pose proof (tr_count args _ (Trace_inv_run script init Trace_inv_init)) as Hco.
  destruct (main (run cfg args script init)); auto.
Qed.

(** X6: without [--headless] the window is shown exactly the arrays that are
    published, in the order of their publication, and lags behind by one
    array at most. *)
Theorem window_shows_what_is_published script :
  headless args = false ->
  ∃ rest,
    set_frames (log (run cfg args script init))
    = shown (log (run cfg args script init)) ++ rest
    ∧ (length rest <= 1)%nat.
Proof.
  intros Hwindow.
  pose proof (tr_shown args _ (Trace_inv_run script init Trace_inv_init)) as Hsh.
  rewrite Hwindow in Hsh.
  assert (Hcases : set_frames (log (run cfg args script init))
                   = shown (log (run cfg args script init))
                   ∨ ∃ r, set_frames (log (run cfg args script init))
                          = shown (log (run cfg args script init)) ++ [r])
    by (destruct (main (run cfg args script init)); eauto).
  destruct Hcases as [Hsame|[r Hlag]].
  - exists []. rewrite (right_id_L [] (++)). split; [done|simpl; lia].
  - exists [r]. split; [done|simpl; lia].
Qed.

End trace_facts.

(** ** Handlers: failures and repetition *)

Section handler_facts.
Import Thermal Cv2 Pipeline Http Program Trace.
Context {Mat : Type} `{!External Mat}.
Variable cfg : Settings.
Variable args : Args.

Implicit Types (s : @System Mat) (r : nat) (self : Handler).

(** A write that fails stops the sequence where it stands. *)
Lemma writes_fail chunks k :
  (k < length chunks)%nat ->
  writes chunks (Some k) = (wfile_write <$> take k chunks, false).
Proof.
  revert k. induction chunks as [|data chunks IH]; intros k Hk; simpl in *; [lia|].
  destruct k as [|k]; [done|]. simpl. rewrite IH by lia. done.
Qed.

(** A handler that has returned does nothing more. *)
Lemma finished_stays a s c self :
  handlers s !! c = Some self -> pc self = Finished ->
  handlers (step cfg args a s) !! c = Some self.
Proof.
  intros Hc Hpc.
  destruct (runs_handler c a) eqn:Hruns; [|by apply step_other_handler].
  destruct a as [i| |p|c' fail]; try discriminate.
  simpl in Hruns. apply Nat.eqb_eq in Hruns as ->.
  simpl. rewrite Hc. simpl.
  rewrite list_lookup_insert_eq by (by eapply lookup_lt_Some).
  unfold handler_step. rewrite Hpc. done.
Qed.

Lemma finished_stays_run script s c self :
  handlers s !! c = Some self -> pc self = Finished ->
  handlers (run cfg args script s) !! c = Some self.
Proof.
  revert s. induction script as [|a script IH]; intros s Hc Hpc; [done|].
  simpl. by apply IH; [apply finished_stays|].
Qed.

(** X7: a write that raises in the stream loop ends that connection and
    nothing else: the writes before it were made, the error is printed and
    [do_GET] returns for good; the other handlers, the frame store, the
    arrays and the main thread are as before. *)
Theorem write_failure_ends_only_that_connection s c self r pixels k :
  handlers s !! c = Some self -> pc self = Encode r ->
  heap s !! r = Some pixels -> (k < 4)%nat ->
  handlers (step cfg args (Handle c (Some k)) s) !! c
  = Some {| path := path self; pc := Finished;
            calls := calls self
                     ++ take k [wfile_write ("--frame" +:+ CRLF);
                                wfile_write ("Content-Type: image/jpeg" +:+ CRLF +:+ CRLF);
                                wfile_write (imencode_jpg pixels);
                                wfile_write CRLF]
                     ++ [print_streaming_error] |}
  ∧ (∀ c', c' ≠ c ->
       handlers (step cfg args (Handle c (Some k)) s) !! c' = handlers s !! c')
  ∧ heap (step cfg args (Handle c (Some k)) s) = heap s
  ∧ server (step cfg args (Handle c (Some k)) s) = server s
  ∧ main (step cfg args (Handle c (Some k)) s) = main s
  ∧ log (step cfg args (Handle c (Some k)) s) = log s
  ∧ ∀ script,
      handlers (run cfg args script (step cfg args (Handle c (Some k)) s)) !! c
      = handlers (step cfg args (Handle c (Some k)) s) !! c.
Proof.
  intros Hc Hpc Hpix Hk.
  assert (Hlt : (c < length (handlers s))%nat) by (by eapply lookup_lt_Some).
  assert (Hstep : handlers (step cfg args (Handle c (Some k)) s) !! c
                  = Some {| path := path self; pc := Finished;
                            calls := calls self
                                     ++ take k (part_calls (imencode_jpg pixels))
                                     ++ [print_streaming_error] |}).
  { simpl. rewrite Hc. simpl. rewrite list_lookup_insert_eq by done.
    unfold handler_step. rewrite Hpc, Hpix. unfold stream_write.
    rewrite writes_fail by (simpl; lia).
    unfold part_calls. by rewrite fmap_take. }
  destruct (http_step_frame cfg args (Handle c (Some k)) s eq_refl)
    as (Hheap & Hsrv & _ & Hmain & Hlog).
  split_and!; try done.
  - intros c' Hne. simpl. rewrite Hc. simpl. by rewrite list_lookup_insert_ne.
  - intros script. rewrite Hstep. by apply finished_stays_run.
Qed.

(** X8: the stream loop has no memory of what it sent: as long as nothing new
    is published, every pass sends the same JPEG again, [n] passes [n]
    copies. *)
Theorem stream_resends_the_same_frame n s c self r pixels :
  handlers s !! c = Some self -> pc self = StreamLoop ->
  get_frame (server s) = Some r -> heap s !! r = Some pixels ->
  handlers (run cfg args (passes c n) s) !! c
  = Some {| path := path self; pc := StreamLoop;
            calls := calls self
                     ++ repeated n [wfile_write ("--frame" +:+ CRLF);
                                    wfile_write ("Content-Type: image/jpeg" +:+ CRLF +:+ CRLF);
                                    wfile_write (imencode_jpg pixels);
                                    wfile_write CRLF] |}
  ∧ server (run cfg args (passes c n) s) = server s
  ∧ heap (run cfg args (passes c n) s) = heap s.
Proof.
  revert s self. induction n as [|n IH]; intros s self Hc Hpc Hget Hpix.
  - simpl. rewrite (right_id_L [] (++)). by destruct self; simpl in *; subst.
  - assert (Hlt : (c < length (handlers s))%nat) by (by eapply lookup_lt_Some).
    set (s1 := step cfg args (Handle c None) s).
    assert (Hread : handlers s1 !! c
                    = Some {| path := path self; pc := Encode r; calls := calls self |}).
    { subst s1. simpl. rewrite Hc. simpl. rewrite list_lookup_insert_eq by done.
      unfold handler_step, stream_read. by rewrite Hpc, Hget. }
    destruct (http_step_frame cfg args (Handle c None) s eq_refl)
      as (Hheap1 & Hsrv1 & _ & _ & _).
    fold s1 in Hheap1, Hsrv1.
    set (s2 := step cfg args (Handle c None) s1).
    assert (Hwrite : handlers s2 !! c
                     = Some {| path := path self; pc := StreamLoop;
                               calls := calls self ++ part_calls (imencode_jpg pixels) |}).
    { subst s2. apply (handler_step_write cfg args s1 c _ r pixels Hread); [done|].
      by rewrite Hheap1. }
    destruct (http_step_frame cfg args (Handle c None) s1 eq_refl)
      as (Hheap2 & Hsrv2 & _ & _ & _).
    fold s2 in Hheap2, Hsrv2.
    destruct (IH s2 _ Hwrite eq_refl) as (Hc' & Hsrv' & Hheap').
    { by rewrite Hsrv2, Hsrv1. }
    { by rewrite Hheap2, Hheap1. }
    change (run cfg args (passes c (S n)) s) with (run cfg args (passes c n) s2).
    rewrite Hc', Hsrv', Hheap', Hsrv2, Hsrv1, Hheap2, Hheap1.
    split_and!; try done. simpl. by rewrite <- (assoc_L (++)).
Qed.

(** The handlers that an action spares stay, and so does a main thread that
    waits in [server_close] for one of them. *)
Lemma joining_step a s why c self :
  main s = Joining why -> handlers s !! c = Some self -> pc self ≠ Finished ->
  spares c a = true ->
  main (step cfg args a s) = Joining why
  ∧ log (step cfg args a s) = log s
  ∧ handlers (step cfg args a s) !! c = Some self.
Proof.
  intros Hmain Hc Hpc Ha.
  assert (Hother : runs_handler c a = false).
  { destruct a as [i| |p|c' fail]; try done. simpl in *.
    by apply negb_true_iff in Ha. }
  split_and!; [| |by apply step_other_handler].
  - destruct a as [i| |p|c' fail]; try discriminate.
    + simpl. unfold main_step. rewrite Hmain.
      destruct (forallb handler_done (handlers s)) eqn:Hall; [|done].
      rewrite forallb_forall in Hall.
      apply list_elem_of_lookup_2, list_elem_of_In, Hall in Hc.
      unfold handler_done in Hc. by destruct (pc self).
    + by destruct (http_step_frame cfg args (Request p) s eq_refl) as (_ & _ & _ & -> & _).
    + by destruct (http_step_frame cfg args (Handle c' fail) s eq_refl)
        as (_ & _ & _ & -> & _).
  - destruct a as [i| |p|c' fail]; try discriminate.
    + simpl. unfold main_step. rewrite Hmain.
      destruct (forallb handler_done (handlers s)) eqn:Hall; [|done].
      rewrite forallb_forall in Hall.
      apply list_elem_of_lookup_2, list_elem_of_In, Hall in Hc.
      unfold handler_done in Hc. by destruct (pc self).
    + by destruct (http_step_frame cfg args (Request p) s eq_refl) as (_ & _ & _ & _ & ->).
    + by destruct (http_step_frame cfg args (Handle c' fail) s eq_refl)
        as (_ & _ & _ & _ & ->).
Qed.

(** X9: [server.server_close()] waits for the handler threads: while one
    connection is still being served, the main thread stays in the [finally]
    block and neither closes the window nor prints "Capture ended". *)
Theorem server_close_waits_for_handlers script s why c self :
  main s = Joining why -> handlers s !! c = Some self -> pc self ≠ Finished ->
  forallb (spares c) script = true ->
  main (run cfg args script s) = Joining why
  ∧ log (run cfg args script s) = log s.
Proof.
  revert s. induction script as [|a script IH]; intros s Hmain Hc Hpc Hall; [done|].
  simpl in Hall. apply andb_prop in Hall as [Ha Hall].
  destruct (joining_step a s why c self Hmain Hc Hpc Ha) as (Hmain' & Hlog' & Hc').
  simpl. destruct (IH _ Hmain' Hc' Hpc Hall) as [-> ->]. done.
Qed.

End handler_facts.

(** ** The main thread: other ways out of the loop *)

Section loop_facts.
Import Numpy Thermal Layout Cv2 Pipeline Http Program Trace.
Context {Mat : Type} `{!External Mat}.
Variable cfg : Settings.
Variable args : Args.

Implicit Types (s : @System Mat) (r : nat).

(** [k & 0xFF] is [k mod 256], also for the -1 of "no key". *)
Lemma quit_pressed_spec k : quit_pressed k = true <-> k `mod` 256 = 113.
Proof.
  unfold quit_pressed. change 255 with (Z.ones 8).
  rewrite Z.land_ones by lia. change (2 ^ 8) with 256. apply Z.eqb_eq.
Qed.

(** X10: with a window, each pass shows the array just published and polls the
    keyboard once; the loop is left for the [finally] block exactly when the
    low byte of the key code is that of [q], whatever the higher bits, and
    goes on otherwise, in particular on the -1 of "no key". *)
Theorem quit_key_ends_the_loop s i r :
  headless args = false -> main s = Display r ->
  log (main_step cfg args i s) = log s ++ [cv2_imshow r; cv2_waitKey (key i)]
  ∧ heap (main_step cfg args i s) = heap s
  ∧ server (main_step cfg args i s) = server s
  ∧ (key i `mod` 256 = 113 -> main (main_step cfg args i s) = Finally QuitKey)
  ∧ (key i `mod` 256 ≠ 113 -> main (main_step cfg args i s) = Capture).
Proof.
  intros Hwindow Hmain. unfold main_step. rewrite Hmain, Hwindow.
  destruct (quit_pressed (key i)) eqn:Hq; simpl; split_and!; try done.
  - apply quit_pressed_spec in Hq. done.
  - intros Hkey%quit_pressed_spec. congruence.
Qed.

(** X11: Ctrl+C anywhere in the loop is caught: the message is printed and the
    main thread is at the [finally] block.  From then on it reads no frame
    and publishes nothing: an array that was annotated but not yet handed to
    [set_frame] never reaches the frame store. *)
Theorem keyboard_interrupt_ends_capture s :
  in_loop s = true ->
  main (interrupt s) = Finally Interrupt
  ∧ log (interrupt s) = log s ++ [print (LF +:+ "Stopping capture...")]
  ∧ ∀ script,
      (∃ tail,
         log (run cfg args script (interrupt s))
         = (log s ++ [print (LF +:+ "Stopping capture...")]) ++ tail
         ∧ (tail = []
            ∨ tail = [cap_release; server_shutdown; server_server_close]
            ∨ tail = [cap_release; server_shutdown; server_server_close]
                     ++ (if headless args then [] else [cv2_destroyAllWindows])
                     ++ [print "Capture ended"]))
      ∧ get_frame (server (run cfg args script (interrupt s))) = get_frame (server s)
      ∧ heap (run cfg args script (interrupt s)) = heap s.
Proof.
  intros Hloop.
  assert (Hstep : interrupt s
                  = goto (Finally Interrupt)
                      (emit [print (LF +:+ "Stopping capture...")] s)).
  { unfold in_loop in Hloop. unfold interrupt. by destruct (main s). }
  rewrite Hstep. split_and!; [done..|].
  intros script.
  destruct (after_loop_run cfg args script
              (goto (Finally Interrupt) (emit [print (LF +:+ "Stopping capture...")] s))
              Interrupt (log s ++ [print (LF +:+ "Stopping capture...")]))
    as (Hafter & Hheap & Hsrv); [by left|].
  split_and!; [|done..].
  destruct Hafter as [[_ Hlog]|[[_ Hlog]|[_ [Hlog|[Hlog|Hlog]]]]]; rewrite Hlog.
  - exists []. by rewrite (right_id_L [] (++)); auto.
  - eexists. split; [done|]. auto.
  - exists []. by rewrite (right_id_L [] (++)); auto.
  - eexists. split; [done|]. auto.
  - eexists. split; [done|]. auto.
Qed.

(** X12: the decode needs row 96 of the thermal half.  A frame of fewer than
    194 rows raises [IndexError]: the loop is left by the exception, for the
    [finally] block, and nothing of that frame is published.  A frame of 194
    rows or more, each of 129 pixels of two bytes or more, is decoded; it
    goes on to the overlay when the image operations return, and when one of
    them raises the loop is left by that exception in the same way. *)
Theorem short_frame_ends_capture s frame k :
  main s = Capture ->
  ((length frame < 194)%nat ->
   main (main_step cfg args {| camera := Frame frame; key := k |} s)
   = Finally Exception
   ∧ log (main_step cfg args {| camera := Frame frame; key := k |} s)
     = log s ++ [cap_isOpened true; cap_read (Some frame)]
   ∧ heap (main_step cfg args {| camera := Frame frame; key := k |} s) = heap s
   ∧ server (main_step cfg args {| camera := Frame frame; key := k |} s) = server s)
  ∧ ((194 <= length frame)%nat -> wide_enough frame ->
     ∃ temp,
       frame_temp frame = Some temp
       ∧ (∀ bgr heatmap,
            visible cfg (take (visual_rows frame) frame) = Some bgr ->
            applyColorMap bgr COLORMAP_JET = Some heatmap ->
            main (main_step cfg args {| camera := Frame frame; key := k |} s)
            = Overlay (length (heap s)) temp
            ∧ heap (main_step cfg args {| camera := Frame frame; key := k |} s)
              = heap s ++ [heatmap])
       ∧ (visible cfg (take (visual_rows frame) frame) = None
          ∨ (∃ bgr, visible cfg (take (visual_rows frame) frame) = Some bgr
                    ∧ applyColorMap bgr COLORMAP_JET = None) ->
          main (main_step cfg args {| camera := Frame frame; key := k |} s)
          = Finally Exception
          ∧ log (main_step cfg args {| camera := Frame frame; key := k |} s)
            = log s ++ [cap_isOpened true; cap_read (Some frame)]
          ∧ heap (main_step cfg args {| camera := Frame frame; key := k |} s)
            = heap s
          ∧ server (main_step cfg args {| camera := Frame frame; key := k |} s)
            = server s)).
Proof.
  intros Hmain. unfold main_step. rewrite Hmain. simpl. split.
  - intros Hshort%frame_temp_short%(process_undecoded cfg). by rewrite Hshort.
  - intros Htall Hwide.
    destruct (frame_temp_tall frame Htall Hwide) as [temp Htemp].
    exists temp. split; [done|].
    unfold process. unfold frame_temp in Htemp.
    rewrite split_frame_at in *. simpl in *. rewrite Htemp. simpl. split.
    + intros bgr heatmap -> Hmap. simpl. by rewrite Hmap.
    + intros [->|(bgr & -> & Hmap)]; simpl; [done|]. by rewrite Hmap.
Qed.

End loop_facts.

(** ** Platform detection *)

Section platform_facts.
Import Platform.

Lemma append_cons x (a b : string) : String x a +:+ b = String x (a +:+ b).
Proof. reflexivity. Qed.

Lemma prefix_spec needle hay :
  String.prefix needle hay = true <-> ∃ post, hay = needle +:+ post.
Proof.
  revert hay. induction needle as [|x needle IH]; intros hay.
  - split; [by exists hay|]. by destruct hay.
  - destruct hay as [|y hay]; simpl.
    + split; [done|]. by intros [post Hpost].
    + destruct (ascii_dec x y) as [->|Hne].
      * rewrite IH. split; intros [post Hpost]; exists post.
        -- by rewrite append_cons, <- Hpost.
        -- rewrite append_cons in Hpost. by injection Hpost.
      * split; [done|]. intros [post Hpost].
        rewrite append_cons in Hpost. injection Hpost as <- _. done.
Qed.

Lemma contains_spec needle hay :
  contains needle hay = true <-> ∃ pre post, hay = pre +:+ needle +:+ post.
Proof.
  induction hay as [|y hay IH].
  - change (contains needle "") with (String.prefix needle "" || false).
    rewrite orb_false_r, prefix_spec. split.
    + intros [post Hpost]. by exists EmptyString, post.
    + intros (pre & post & Hhay). destruct pre as [|x pre]; [by exists post|].
      by rewrite append_cons in Hhay.
  - change (contains needle (String y hay))
      with (String.prefix needle (String y hay) || contains needle hay).
    rewrite orb_true_iff, prefix_spec, IH. split.
    + intros [[post Hpost]|(pre & post & Hhay)].
      * by exists EmptyString, post.
      * exists (String y pre), post. by rewrite append_cons, <- Hhay.
    + intros (pre & post & Hhay). destruct pre as [|x pre].
      * left. by exists post.
      * right. rewrite append_cons in Hhay. injection Hhay as -> Hhay.
        by exists pre, post.
Qed.

Lemma lower_app (a b : string) : lower (a +:+ b) = lower a +:+ lower b.
Proof.
  induction a as [|x a IH]; [done|].
  rewrite append_cons. simpl. by rewrite IH, append_cons.
Qed.

Lemma lower_split s (a b : string) :
  lower s = a +:+ b -> ∃ a' b', s = a' +:+ b' ∧ lower a' = a ∧ lower b' = b.
Proof.
  revert s. induction a as [|x a IH]; intros s Hs.
  - by exists EmptyString, s.
  - destruct s as [|y s]; [done|].
    rewrite append_cons in Hs. simpl in Hs. injection Hs as Hx Hs.
    destruct (IH s Hs) as (a' & b' & -> & Ha & Hb).
    exists (String y a'), b'. split_and!; [done| |done].
    simpl. by rewrite Hx, Ha.
Qed.

(** X13: [is_raspberrypi] answers [True] exactly when the model file could
    be read and holds the words "raspberry pi" in some mix of upper and lower
    case, anywhere in it (for a file of ASCII text); it answers [False] when
    the file cannot be read. *)
Theorem is_raspberrypi_spec :
  (∀ text,
     isascii text = true ->
     is_raspberrypi (Some text) = true
     <-> ∃ before word after,
           text = before +:+ word +:+ after ∧ lower word = "raspberry pi")
  ∧ is_raspberrypi None = false.
Proof.
  split; [|done]. intros text _. unfold is_raspberrypi.
  destruct (contains "raspberry pi" (lower text)) eqn:Hin.
  - split; [intros _|done].
    apply contains_spec in Hin as (pre & post & Hlow).
    apply lower_split in Hlow as (before & rest & -> & _ & Hrest).
    apply lower_split in Hrest as (word & after & -> & Hword & _).
    by exists before, word, after.
  - split; [done|]. intros (before & word & after & -> & Hword).
    assert (Hyes : contains "raspberry pi" (lower (before +:+ word +:+ after)) = true).
    { apply contains_spec. exists (lower before), (lower after).
      by rewrite !lower_app, Hword. }
    congruence.
Qed.

End platform_facts.

(** ** Frames are published in the order they were read *)

Section order_facts.
Import Thermal Cv2 Pipeline Http Program Trace Order.
Context {Mat : Type} `{!External Mat}.
Variable cfg : Settings.
Variable args : Args.

Implicit Types (s : @System Mat) (r : nat).

Lemma Order_inv_init : Order_inv cfg (init (Mat := Mat)).
Proof. split; [|done]. intros i r Hi. simpl in Hi. by rewrite lookup_nil in Hi. Qed.

Lemma Order_inv_frame s s' :
  heap s' = heap s -> main s' = main s -> log s' = log s ->
  Order_inv cfg s -> Order_inv cfg s'.
Proof.
  intros Hheap Hmain Hlog [Hpub Hpend].
  split; unfold picture_of in *; rewrite ?Hheap, ?Hmain, ?Hlog; done.
Qed.

(** A step that appends effects other than reads and publishes, and leaves
    the arrays alone, keeps the published part. *)
Lemma ord_published_quiet s s' :
  set_frames (log s') = set_frames (log s) ->
  (∀ i frame, reads (log s) !! i = Some frame -> reads (log s') !! i = Some frame) ->
  (∀ r, r ∈ set_frames (log s) -> heap s' !! r = heap s !! r) ->
  Order_inv cfg s ->
  ∀ i r, set_frames (log s') !! i = Some r ->
         ∃ frame, reads (log s') !! i = Some frame ∧ picture_of cfg s' r frame.
Proof.
  intros Hpubs Hreads Hheap [Hpub _] i r Hi. rewrite Hpubs in Hi.
  destruct (Hpub i r Hi) as (frame & Hframe & temp & heatmap & Hproc & Hpix).
  exists frame. split; [by apply Hreads|].
  exists temp, heatmap. split; [done|].
  rewrite Hheap; [done|]. by eapply list_elem_of_lookup_2.
Qed.

Lemma Order_inv_main_step i s :
  Trace_inv args s -> Order_inv cfg s -> Order_inv cfg (main_step cfg args i s).
Proof.
  intros [Hst Hnd Hal Hpe Hco Hsh] HO. pose proof HO as [Hpub Hpend].
  unfold main_step.
  destruct (main s) as [|r temp|r|r|why|why|why] eqn:Hmain.
  - destruct (camera i) as [| |frame].
    + split; [|done]. apply (ord_published_quiet s); simpl; trace_norm; auto.
    + split; [|done]. apply (ord_published_quiet s); simpl; trace_norm; auto.
    + destruct (process cfg frame) as [[temp heatmap]|] eqn:Hproc.
      * split.
        -- apply (ord_published_quiet s); simpl; trace_norm; auto.
           ++ intros j f Hj. by apply lookup_app_l_Some.
           ++ intros r Hr. apply lookup_app_l. by apply Hal.
        -- simpl. exists frame, heatmap. trace_norm.
           split_and!; [|done|by rewrite list_lookup_middle].
           rewrite list_lookup_middle; [done|]. by rewrite <- Hco.
      * split; [|done]. apply (ord_published_quiet s); simpl; trace_norm; auto.
        intros j f Hj. by apply lookup_app_l_Some.
  - destruct Hpe as [Hlt Hfresh].
    destruct Hpend as (frame & heatmap & Hframe & Hproc & Hpix).
    split.
    + apply (ord_published_quiet s); simpl; auto.
      intros r' Hr'. apply list_lookup_alter_ne. by intros ->.
    + simpl. exists frame. split; [done|]. exists temp, heatmap.
      split; [done|]. simpl. by rewrite list_lookup_alter_eq, Hpix.
  - destruct Hpend as (frame & Hframe & Hpic).
    split; [|done]. simpl. trace_norm. intros j r' Hj.
    apply lookup_app_Some in Hj as [Hj|[Hge Hj]].
    + destruct (Hpub j r' Hj) as (f & Hf & Hp). by exists f.
    + apply list_lookup_singleton_Some in Hj as [Hj <-].
      assert (j = length (set_frames (log s))) as -> by (unfold set_frames; lia).
      by exists frame.
  - destruct (headless args).
    + split; [|done]. by apply (ord_published_quiet s).
    + destruct (quit_pressed (key i));
        (split; [|done]; apply (ord_published_quiet s); simpl; trace_norm; auto).
  - split; [|done]. apply (ord_published_quiet s); simpl; trace_norm; auto.
  - destruct (forallb handler_done (handlers s)); [|done].
    split; [|done]. apply (ord_published_quiet s); simpl; unfold farewell;
      destruct (headless args); trace_norm; auto.
  - done.
Qed.

Lemma Order_inv_interrupt s : Order_inv cfg s -> Order_inv cfg (interrupt s).
Proof.
  intros HO. unfold interrupt.
  destruct (main s) eqn:Hmain; try exact HO;
    (split; [|done]; apply (ord_published_quiet s); simpl; trace_norm; auto).
Qed.

Lemma Order_inv_run script s :
  Trace_inv args s -> Order_inv cfg s -> Order_inv cfg (run cfg args script s).
Proof.
  revert s. induction script as [|a script IH]; intros s HT HO; [done|].
  simpl. apply IH; [by apply Trace_inv_step|].
  destruct (http_action a) eqn:Hhttp.
  { destruct (http_step_frame cfg args a s Hhttp) as (? & _ & _ & ? & ?).
    by apply Order_inv_frame with s. }
  destruct a as [i| |p|c fail]; try discriminate; simpl.
  - by apply Order_inv_main_step.
  - by apply Order_inv_interrupt.
Qed.

(** X14: frames are published in the order they were read, none twice and
    none out of turn: in every state the [i]-th array handed to [set_frame]
    holds the finished picture of the [i]-th frame [cap.read] gave. *)
Theorem frames_published_in_capture_order script i r :
  set_frames (log (run cfg args script init)) !! i = Some r ->
  ∃ frame temp heatmap,
    reads (log (run cfg args script init)) !! i = Some frame
    ∧ process cfg frame = Some (temp, heatmap)
    ∧ heap (run cfg args script init) !! r = Some (overlay temp heatmap).
Proof.
  intros Hi.
  destruct (ord_published cfg _
              (Order_inv_run script init (Trace_inv_init args) Order_inv_init) i r Hi)
    as (frame & Hframe & temp & heatmap & Hproc & Hpix).
  by exists frame, temp, heatmap.
Qed.

End order_facts.

(** ** The further properties on concrete runs *)

Section more_witnesses.
Import Numpy Thermal Layout Cv2 Pipeline Http Program Trace Order Platform.
Import Symbolic Examples MoreExamples.

Lemma temperature_range_witness :
  ∃ temp,
    frame_temp (uniform_frame 255 255) = Some temp
    ∧ PrimFloat.leb (-273.15) temp = true
    ∧ PrimFloat.ltb temp 750.84 = true.
Proof.
  apply (temperature_range (uniform_frame 255 255) 255 255);
    [vm_compute; reflexivity | unfold uint8; lia | unfold uint8; lia].
Defined.

Lemma window_shows_what_is_published_witness :
  ∃ rest,
    set_frames (log (run settings default_args windowed init))
    = shown (log (run settings default_args windowed init)) ++ rest
    ∧ (length rest <= 1)%nat.
Proof.
  apply (window_shows_what_is_published (Mat := Picture) settings default_args windowed).
  reflexivity.
Defined.

Lemma write_failure_ends_only_that_connection_witness :
  handlers (step settings headless_args (Handle 0 (Some 2%nat))
              (run settings headless_args first_publish init)) !! 0%nat
  = Some {| path := "/stream"; pc := Finished;
            calls := stream_head
                     ++ [wfile_write ("--frame" +:+ CRLF);
                         wfile_write ("Content-Type: image/jpeg" +:+ CRLF +:+ CRLF)]
                     ++ [print_streaming_error] |}.
Proof.
  destruct (write_failure_ends_only_that_connection settings headless_args
              (run settings headless_args first_publish init) 0
              {| path := "/stream"; pc := Encode 0; calls := stream_head |}
              0 picture_a 2) as (Hfail & _).
  - vm_compute. reflexivity.
  - reflexivity.
  - vm_compute. reflexivity.
  - lia.
  - exact Hfail.
Defined.

Lemma stream_resends_the_same_frame_witness :
  handlers (run settings headless_args (passes 0 3)
              (run settings headless_args (early_client ++ [Main frame_a]) init))
    !! 0%nat
  = Some {| path := "/stream"; pc := StreamLoop;
            calls := stream_head
                     ++ repeated 3
                          [wfile_write ("--frame" +:+ CRLF);
                           wfile_write ("Content-Type: image/jpeg" +:+ CRLF +:+ CRLF);
                           wfile_write (imencode_jpg picture_a);
                           wfile_write CRLF] |}.
Proof.
  destruct (stream_resends_the_same_frame settings headless_args 3
              (run settings headless_args (early_client ++ [Main frame_a]) init) 0
              {| path := "/stream"; pc := StreamLoop; calls := stream_head |}
              0 picture_a) as (Hsent & _).
  - vm_compute. reflexivity.
  - reflexivity.
  - vm_compute. reflexivity.
  - vm_compute. reflexivity.
  - exact Hsent.
Defined.

Lemma server_close_waits_for_handlers_witness :
  main (run settings default_args waiting
          (run settings default_args failing_camera init))
  = Joining ReadFailure
  ∧ log (run settings default_args waiting
           (run settings default_args failing_camera init))
    = log (run (Mat := Picture) settings default_args failing_camera init).
Proof.
  apply (server_close_waits_for_handlers settings default_args waiting
           (run settings default_args failing_camera init) ReadFailure 0
           {| path := "/stream"; pc := StreamLoop; calls := stream_head |}).
  - vm_compute. reflexivity.
  - vm_compute. reflexivity.
  - discriminate.
  - reflexivity.
Defined.

Lemma quit_key_ends_the_loop_witness :
  main (main_step settings default_args q_key
          (run (Mat := Picture) settings default_args
             [Main frame_a; Main frame_a; Main frame_a] init))
  = Finally QuitKey
  ∧ main (main_step settings default_args no_frame
            (run (Mat := Picture) settings default_args
               [Main frame_a; Main frame_a; Main frame_a] init))
    = Capture.
Proof.
  destruct (quit_key_ends_the_loop (Mat := Picture) settings default_args
              (run settings default_args [Main frame_a; Main frame_a; Main frame_a] init)
              q_key 0) as (_ & _ & _ & Hquit & _);
    [reflexivity | vm_compute; reflexivity |].
  destruct (quit_key_ends_the_loop (Mat := Picture) settings default_args
              (run settings default_args [Main frame_a; Main frame_a; Main frame_a] init)
              no_frame 0) as (_ & _ & _ & _ & Hgo);
    [reflexivity | vm_compute; reflexivity |].
  split; [apply Hquit; reflexivity | apply Hgo; discriminate].
Defined.

Lemma keyboard_interrupt_ends_capture_witness :
  main (run (Mat := Picture) settings headless_args [Main frame_a; Main frame_a] init)
  = Update 0
  ∧ main (interrupt (run (Mat := Picture) settings headless_args
                       [Main frame_a; Main frame_a] init))
    = Finally Interrupt
  ∧ get_frame (server (run settings headless_args [Main frame_a; Main frame_b]
                         (interrupt (run (Mat := Picture) settings headless_args
                                       [Main frame_a; Main frame_a] init))))
    = None.
Proof.
  destruct (keyboard_interrupt_ends_capture (Mat := Picture) settings headless_args
              (run settings headless_args [Main frame_a; Main frame_a] init))
    as (Hmain & _ & Hlater); [vm_compute; reflexivity|].
  split; [vm_compute; reflexivity|]. split; [exact Hmain|].
  destruct (Hlater [Main frame_a; Main frame_b]) as (_ & Hstore & _).
  rewrite Hstore. vm_compute. reflexivity.
Defined.

Lemma short_frame_ends_capture_witness :
  main (main_step (Mat := Picture) settings headless_args short_input init)
  = Finally Exception
  ∧ (∃ temp,
       main (main_step (Mat := Picture) settings headless_args
               {| camera := Frame (uniform_frame 7 46); key := -1 |} init)
       = Overlay 0 temp)
  ∧ frame_temp odd_frame = Some (temp_of_bytes 7 46)
  ∧ main (main_step (Mat := Picture) settings headless_args odd_input init)
    = Finally Exception.
Proof.
  destruct (short_frame_ends_capture (Mat := Picture) settings headless_args
              init short_frame (-1) eq_refl) as [Hshort _].
  destruct (short_frame_ends_capture (Mat := Picture) settings headless_args
              init (uniform_frame 7 46) (-1) eq_refl) as [_ Htall].
  destruct (short_frame_ends_capture (Mat := Picture) settings headless_args
              init odd_frame (-1) eq_refl) as [_ Hodd].
  split; [|split; [|split]].
  - apply Hshort. vm_compute. lia.
  - destruct Htall as (temp & _ & Hgo & _).
    + vm_compute. lia.
    + unfold wide_enough, uniform_frame.
      apply Forall_replicate. split; [rewrite length_replicate; lia|].
      apply Forall_replicate. simpl. lia.
    + exists temp.
      apply (Hgo (Resize
                    (ConvertScaleAbs
                       (CvtColor (take 192 (uniform_frame 7 46)) COLOR_YUV2BGR_YUYV)
                       1.0%float)
                    (768, 576) INTER_CUBIC)
                 (ApplyColorMap
                    (Resize
                       (ConvertScaleAbs
                          (CvtColor (take 192 (uniform_frame 7 46)) COLOR_YUV2BGR_YUYV)
                          1.0%float)
                       (768, 576) INTER_CUBIC)
                    COLORMAP_JET));
        [vm_compute; reflexivity | reflexivity].
  - vm_compute. reflexivity.
  - destruct Hodd as (temp & _ & _ & Hraise).
    + vm_compute. lia.
    + unfold wide_enough, odd_frame.
      apply Forall_replicate. split; [rewrite length_replicate; lia|].
      apply Forall_replicate. simpl. lia.
    + apply Hraise. left. vm_compute. reflexivity.
Defined.

Lemma is_raspberrypi_spec_witness :
  is_raspberrypi (Some "Raspberry Pi 4 Model B Rev 1.4") = true
  ∧ is_raspberrypi None = false.
Proof.
  destruct is_raspberrypi_spec as [Hyes Hno]. split; [|exact Hno].
  apply Hyes; [reflexivity|]. by exists "", "Raspberry Pi", " 4 Model B Rev 1.4".
Defined.

Lemma frames_published_in_capture_order_witness :
  ∃ frame temp heatmap,
    reads (log (run settings headless_args (first_publish ++ next_capture) init))
      !! 1%nat = Some frame
    ∧ process settings frame = Some (temp, heatmap)
    ∧ heap (run settings headless_args (first_publish ++ next_capture) init) !! 1%nat
      = Some (overlay temp heatmap).
Proof.
  apply (frames_published_in_capture_order settings headless_args
           (first_publish ++ next_capture) 1 1).
  vm_compute. reflexivity.
Defined.

End more_witnesses.
